(** * Sensor aggregation pipeline of [src/main.py] and [src/mqtt_client.py]

    A shallow embedding of the rolling-window buffer, the three reduction
    functions, the payload shaping, the publisher cycle, the sampling
    workers and the MQTT wrapper, with the properties of the specification
    stated over these definitions.

    Numbers.  Python floats and ints are embedded as exact rationals [Q]:
    sums, divisions and comparisons are the exact ones, and [round(x, n)]
    rounds the exact value half-to-even.  Binary floating-point error is
    outside the model. *)

From Stdlib Require Import QArith Qround Lqa ZArith List Lia Sorting Permutation String.
From Stdlib Require Import Qabs.
From stdpp Require Import base gmap list strings sorting.
Import ListNotations.

(** ** Python numerics *)

Module PyNum.

(** [a < b] on floats, as a boolean. *)
Definition Qltb (a b : Q) : bool := negb (Qle_bool b a).

(** [round(x)]: nearest integer, ties to the even one. *)
Definition round_half_even (x : Q) : Z :=
  let f := Qfloor x in
  let r := (x - inject_Z f)%Q in
  if Qltb r (1 # 2) then f
  else if Qltb (1 # 2) r then (f + 1)%Z
  else if Z.even f then f else (f + 1)%Z.

(** [round(x, ndigits)] for [ndigits >= 0]. *)
Definition py_round (x : Q) (ndigits : nat) : Q :=
  let p := Pos.pow 10 (Pos.of_nat ndigits) in
  match ndigits with
  | O => inject_Z (round_half_even x)
  | _ => Qred (round_half_even (x * inject_Z (Zpos p)) # p)
  end.

(** [int(x)]: truncation toward zero. *)
Definition py_int (x : Q) : Z := Z.quot (Qnum x) (Zpos (Qden x)).

(** [sum(values)]: left fold starting from 0. *)
Definition py_sum (values : list Q) : Q := fold_left Qplus values 0%Q.

(** [len(values)] as a number usable in a division. *)
Definition py_len {A} (values : list A) : Q := inject_Z (Z.of_nat (length values)).

(** [sorted(values)]: Python's sort is stable; on a list of numbers its
    result is the one of a stable insertion sort. *)
Fixpoint insert_sorted (x : Q) (l : list Q) : list Q :=
  match l with
  | [] => [x]
  | y :: l' => if Qle_bool x y then x :: y :: l' else y :: insert_sorted x l'
  end.

Fixpoint sorted (values : list Q) : list Q :=
  match values with
  | [] => []
  | x :: l => insert_sorted x (sorted l)
  end.

(** Index normalisation of a slice bound: negative bounds count from the
    end, and every bound is clamped to [0, len]. *)
Definition slice_bound (n i : Z) : nat :=
  Z.to_nat (if (i <? 0)%Z then Z.max 0 (i + n) else Z.min i n).

(** [l[i:j]]. *)
Definition py_slice {A} (l : list A) (i j : Z) : list A :=
  let n := Z.of_nat (length l) in
  drop (slice_bound n i) (take (slice_bound n j) l).

End PyNum.
Export PyNum.

(** ** Aggregator ([main.py], lines 65-123) *)

Definition BUF_WINDOW_S : Q := 10.
Definition TRIM_FRAC : Q := 1 # 10.
Definition MIN_SAMPLES_FOR_TRIM : nat := 5.

(** Keys of the [MIN_REQUIRED] dictionary. *)
Inductive min_key := K_slot | K_co2 | K_pm25 | K_pres.

Definition MIN_REQUIRED (k : min_key) : nat :=
  match k with
  | K_slot => 2
  | K_co2 => 2
  | K_pm25 => 5
  | K_pres => 2
  end.

(** [round(sum(values) / len(values), 2)], the expression shared by
    [_mean_safe] and the fall-back branches of [_trimmed_mean_safe]. *)
Definition plain_mean (values : list Q) : Q :=
  py_round (py_sum values / py_len values) 2.

Definition _mean_safe (values : list Q) : option Q :=
  match values with
  | [] => None
  | _ => Some (py_round (py_sum values / py_len values) 2)
  end.

(** [statistics.median] of the Python standard library: [None] stands for
    the [StatisticsError] raised on empty data. *)
Definition statistics_median (data : list Q) : option Q :=
  let data := sorted data in
  let n := length data in
  if n =? 0 then None
  else if n mod 2 =? 1 then Some (nth (n / 2) data 0%Q)
  else
    let i := n / 2 in
    Some ((nth (i - 1) data 0 + nth i data 0) / 2)%Q.

Definition _median_safe (values : list Q) : option Q :=
  match values with
  | [] => None
  | _ => match statistics_median values with
         | Some m => Some (py_round m 2)
         | None => None
         end
  end.

Definition _trimmed_mean_safe_frac (values : list Q) (frac : Q) : option Q :=
  match values with
  | [] => None
  | _ =>
    let n := length values in
    if n <? MIN_SAMPLES_FOR_TRIM then Some (py_round (py_sum values / py_len values) 2)
    else
      let k := py_int (py_len values * frac) in
      if (k =? 0)%Z then Some (py_round (py_sum values / py_len values) 2)
      else
        let vals := py_slice (sorted values) k (Z.of_nat n - k) in
        match vals with
        | [] => Some (py_round (py_sum values / py_len values) 2)
        | _ => Some (py_round (py_sum vals / py_len vals) 2)
        end
  end.

(** The default argument [frac = TRIM_FRAC]; the publisher never passes
    another one.  In binary floating point [int(n * 0.10)] equals the exact
    [floor(n / 10)] for every list length a machine can hold. *)
Definition _trimmed_mean_safe (values : list Q) : option Q :=
  _trimmed_mean_safe_frac values TRIM_FRAC.

(** ** Shared latest state ([main.py], lines 53-60) *)

(** ["sht41"] entry and each ["shtc3"][ch] entry. *)
Record th_reading := { temp_c : Q; rh : Q }.

(** ["bme280"] entry. *)
Record bme_reading := { bme_temp_c : Q; bme_rh_pct : Q; press_hpa : Q; alt_m : Q }.

(** ["gp2y"] entry. *)
Record gp2y_reading := { vout : Q; pm_ugm3 : Q }.

(** ["mhz19b"] entry. *)
Record mhz_reading := { mhz_co2 : Z; mhz_temp : Z }.

(** The [latest] dictionary.  Its keys are fixed, so it is a record; the
    inner ["shtc3"] dictionary is keyed by multiplexer channel and a key
    may hold [None]. *)
Record Latest := {
  timestamp : option Q;
  bme280 : option bme_reading;
  sht41 : option th_reading;
  shtc3 : gmap nat (option th_reading);
  gp2y : option gp2y_reading;
  mhz19b : option mhz_reading;
}.

Definition latest0 : Latest :=
  {| timestamp := None; bme280 := None; sht41 := None; shtc3 := ∅;
     gp2y := None; mhz19b := None |}.

(** ** Exceptions, console lines and calls reaching the MQTT library *)

Inductive exn := Exception (msg : string).

Inductive outcome (A : Type) :=
  | Returns (a : A)
  | Raises (e : exn).
Arguments Returns {A} a.
Arguments Raises {A} e.

(** The lines the program prints, without their decoration; [LogPub] stands
    for the line of [MQTTClient.publish] that also shows the payload. *)
Inductive log_line :=
  | LogSht41Error (e : exn)
  | LogShtc3Error (ch : nat) (e : exn)
  | LogBmeReadError (e : exn)
  | LogGp2yReadError (e : exn)
  | LogMhzReadError (e : exn)
  | LogMqttConnected
  | LogMqttConnectError (e : exn)
  | LogMqttSend (topic : string)
  | LogMqttPublishError (topic : string) (e : exn)
  | LogPub (topic : string) (qos : Z)
  | LogWarnNotInList (topic : string).

Section Effects.
(** Type of a message handed to the client ([json.dumps] output). *)
Context {Msg : Type}.

Inductive event :=
  | Print (l : log_line)
  | ClientConnect (host : string) (port : Z)
  | ClientLoopStart
  | ClientPublish (topic : string) (payload : Msg) (qos : Z)
  | Sleep (period : Q).

(** A computation prints and calls the client, then returns or raises. *)
Definition M (A : Type) : Type := list event * outcome A.

Definition ret {A} (a : A) : M A := ([], Returns a).

Definition bind {A B} (m : M A) (f : A → M B) : M B :=
  match m with
  | (tr, Returns a) => let '(tr', r) := f a in (tr ++ tr', r)
  | (tr, Raises e) => (tr, Raises e)
  end.

Definition emit (ev : event) : M unit := ([ev], Returns tt).

(** [try: m  except Exception as e: h e]. *)
Definition try_except {A} (m : M A) (h : exn → M A) : M A :=
  match m with
  | (tr, Raises e) => let '(tr', r) := h e in (tr ++ tr', r)
  | ok => ok
  end.
End Effects.
Arguments event : clear implicits.
Arguments M : clear implicits.

(** [m ;;; k]: run [m], then [k] unless [m] raised. *)
Notation "m ;;; k" := (bind m (λ _, k))
  (at level 100, k at level 200, right associativity, only parsing).

(** ** MQTT wrapper ([mqtt_client.py]) *)

Record MQTTClient := {
  broker_host : string;
  broker_port : Z;
  publish_topics : list (string * Z);
}.

(** [MQTTClient.__init__]: a falsy [publish_topics] becomes the empty list. *)
Definition MQTTClient_init (host : string) (port : Z) (topics : list (string * Z))
  : MQTTClient :=
  {| broker_host := host; broker_port := port; publish_topics := topics |}.

Section MQTT.
Context {Msg : Type}.

(** [self.client.connect(...)] of the library: the call is made, then it
    returns or raises as the network decides. *)
Definition client_connect (res : outcome unit) (host : string) (port : Z)
  : M Msg unit := ([ClientConnect host port], res).

(** [self.client.publish(topic, payload, qos=qos)] of the library. *)
Definition client_publish (res : outcome unit) (topic : string) (payload : Msg)
    (qos : Z) : M Msg unit := ([ClientPublish topic payload qos], res).

Definition MQTTClient_connect (self : MQTTClient) (res : outcome unit)
  : M Msg unit :=
  client_connect res (broker_host self) (broker_port self) ;;;
  emit ClientLoopStart.

Definition MQTTClient_publish (self : MQTTClient) (res : outcome unit)
    (topic : string) (payload : Msg) (qos : Z) : M Msg unit :=
  if bool_decide (topic ∈ map fst (publish_topics self)) then
    emit (Print (LogPub topic qos)) ;;;
    client_publish res topic payload qos
  else
    emit (Print (LogWarnNotInList topic)) ;;;
    client_publish res topic payload qos.
End MQTT.

(** ** Window buffer ([main.py], lines 76-103) *)

(** A [deque] of [(ts, val)] pairs; the left end is the head of the list. *)
Abbreviation deque := (list (Q * Q)).

(** The [buf] dictionary.  ["temp_slots"] and ["rh_slots"] hold one deque
    per slot 0..3. *)
Record Buf := {
  buf_temp_slots : gmap nat deque;
  buf_rh_slots : gmap nat deque;
  buf_bme_temp : deque;
  buf_bme_rh : deque;
  buf_bme_pres : deque;
  buf_co2 : deque;
  buf_pm25 : deque;
}.

Definition empty_slots : gmap nat deque :=
  <[0 := []]> (<[1 := []]> (<[2 := []]> (<[3 := []]> ∅))).

Definition buf0 : Buf :=
  {| buf_temp_slots := empty_slots; buf_rh_slots := empty_slots;
     buf_bme_temp := []; buf_bme_rh := []; buf_bme_pres := [];
     buf_co2 := []; buf_pm25 := [] |}.

(** The string keys of [buf], split by the shape of the value. *)
Inductive slot_key := temp_slots | rh_slots.
Inductive flat_key := bme_temp | bme_rh | bme_pres | co2 | pm25.

(** Every sequence of the buffer has a name. *)
Inductive metric :=
  | SlotSeq (key : slot_key) (slot : nat)
  | FlatSeq (key : flat_key).

Definition get_slots (key : slot_key) (b : Buf) : gmap nat deque :=
  match key with
  | temp_slots => buf_temp_slots b
  | rh_slots => buf_rh_slots b
  end.

Definition get_flat (key : flat_key) (b : Buf) : deque :=
  match key with
  | bme_temp => buf_bme_temp b
  | bme_rh => buf_bme_rh b
  | bme_pres => buf_bme_pres b
  | co2 => buf_co2 b
  | pm25 => buf_pm25 b
  end.

(** The sequence of a metric, when the buffer has it. *)
Definition get_seq (m : metric) (b : Buf) : option deque :=
  match m with
  | SlotSeq key slot => get_slots key b !! slot
  | FlatSeq key => Some (get_flat key b)
  end.

Definition set_slots (key : slot_key) (f : gmap nat deque → gmap nat deque)
    (b : Buf) : Buf :=
  match key with
  | temp_slots =>
      {| buf_temp_slots := f (buf_temp_slots b); buf_rh_slots := buf_rh_slots b;
         buf_bme_temp := buf_bme_temp b; buf_bme_rh := buf_bme_rh b;
         buf_bme_pres := buf_bme_pres b; buf_co2 := buf_co2 b;
         buf_pm25 := buf_pm25 b |}
  | rh_slots =>
      {| buf_temp_slots := buf_temp_slots b; buf_rh_slots := f (buf_rh_slots b);
         buf_bme_temp := buf_bme_temp b; buf_bme_rh := buf_bme_rh b;
         buf_bme_pres := buf_bme_pres b; buf_co2 := buf_co2 b;
         buf_pm25 := buf_pm25 b |}
  end.

Definition set_flat (key : flat_key) (f : deque → deque) (b : Buf) : Buf :=
  {| buf_temp_slots := buf_temp_slots b; buf_rh_slots := buf_rh_slots b;
     buf_bme_temp := (if key is bme_temp then f else id) (buf_bme_temp b);
     buf_bme_rh := (if key is bme_rh then f else id) (buf_bme_rh b);
     buf_bme_pres := (if key is bme_pres then f else id) (buf_bme_pres b);
     buf_co2 := (if key is co2 then f else id) (buf_co2 b);
     buf_pm25 := (if key is pm25 then f else id) (buf_pm25 b) |}.

(** [_push(ts, key, val)] with [slot=None]. *)
Definition _push (ts : Q) (key : flat_key) (val : option Q) (b : Buf) : Buf :=
  match val with
  | None => b
  | Some v => set_flat key (λ d, d ++ [(ts, v)]) b
  end.

(** [_push(ts, key, val, slot)].  The publisher only passes the slots 0..3,
    which [buf] holds from the start and never loses (lemma
    [publisher_slots_present] below), so the [KeyError] of [buf[key][slot]]
    on an absent slot has no counterpart here. *)
Definition _push_slot (ts : Q) (key : slot_key) (val : option Q) (slot : nat)
    (b : Buf) : Buf :=
  match val with
  | None => b
  | Some v => set_slots key (alter (λ d, d ++ [(ts, v)]) slot) b
  end.

(** [while d and d[0][0] < cutoff: d.popleft()]. *)
Fixpoint popleft_while (cutoff : Q) (d : deque) : deque :=
  match d with
  | [] => []
  | (ts, v) :: d' => if Qltb ts cutoff then popleft_while cutoff d' else d
  end.

Definition _prune_now (now : Q) (b : Buf) : Buf :=
  let cutoff := (now - BUF_WINDOW_S)%Q in
  {| buf_temp_slots := popleft_while cutoff <$> buf_temp_slots b;
     buf_rh_slots := popleft_while cutoff <$> buf_rh_slots b;
     buf_bme_temp := popleft_while cutoff (buf_bme_temp b);
     buf_bme_rh := popleft_while cutoff (buf_bme_rh b);
     buf_bme_pres := popleft_while cutoff (buf_bme_pres b);
     buf_co2 := popleft_while cutoff (buf_co2 b);
     buf_pm25 := popleft_while cutoff (buf_pm25 b) |}.

(** ** Aggregation and payload shaping ([main.py], lines 294-344) *)

(** [vals(dq)]: [[v for _, v in dq]]. *)
Definition vals (dq : deque) : list Q := map snd dq.

(** The per-cycle aggregates; [None] is "unavailable". *)
Record Aggregates := {
  agg_temp_slots : list (option Q);
  agg_rh_slots : list (option Q);
  co2_aggr : option Q;
  pm25_aggr : option Q;
  pres_aggr : option Q;
}.

(** One round of the [for i in range(4)] loop, for one of the two slot
    dictionaries.  [buf[key][i]] is read with the slot present (see
    [_push_slot]); the total lookup [!!!] yields the empty deque otherwise. *)
Definition slot_aggr (slots : gmap nat deque) (i : nat) : option Q :=
  let vs := vals (slots !!! i) in
  if MIN_REQUIRED K_slot <=? length vs then _mean_safe vs else None.

Definition aggregate (b : Buf) : Aggregates :=
  let co2_vals := vals (buf_co2 b) in
  let pm_vals := vals (buf_pm25 b) in
  let pr_vals := vals (buf_bme_pres b) in
  {| agg_temp_slots := map (slot_aggr (buf_temp_slots b)) (seq 0 4);
     agg_rh_slots := map (slot_aggr (buf_rh_slots b)) (seq 0 4);
     co2_aggr :=
       if MIN_REQUIRED K_co2 <=? length co2_vals then _median_safe co2_vals else None;
     pm25_aggr :=
       if MIN_REQUIRED K_pm25 <=? length pm_vals then _trimmed_mean_safe pm_vals else None;
     pres_aggr :=
       if MIN_REQUIRED K_pres <=? length pr_vals then _mean_safe pr_vals else None |}.

Definition f4_float (lst : list (option Q)) : list Q :=
  let base := map (λ x, match x with Some x => x | None => 0%Q end) lst in
  take 4 (base ++ [0; 0; 0; 0]%Q).

Definition single_to4_int (v : option Q) : list Z :=
  [match v with Some v => round_half_even v | None => 0%Z end; 0; 0; 0]%Z.

Definition single_to4_float (v : option Q) : list Q :=
  [match v with Some v => v | None => 0 end; 0; 0; 0]%Q.

(** The [payload] dictionary; [json.dumps] of it is the message. *)
Record Payload := {
  hvac_id : Z;
  temperature : list Q;
  humidity : list Q;
  payload_co2 : list Z;
  payload_pm25 : list Z;
  pressure : list Q;
}.

Definition shape (a : Aggregates) : Payload :=
  {| hvac_id := 1;
     temperature := f4_float (agg_temp_slots a);
     humidity := f4_float (agg_rh_slots a);
     payload_co2 := single_to4_int (co2_aggr a);
     payload_pm25 := single_to4_int (pm25_aggr a);
     pressure := single_to4_float (pres_aggr a) |}.

(** ** Publisher ([main.py], lines 237-354) *)

Definition ch_to_slot : list (nat * nat) := [(2, 0); (3, 1); (4, 2); (5, 3)].

(** Lines 260-263: one round of the loop over [ch_to_slot]. *)
Definition push_channel (ts : Q) (s3 : gmap nat (option th_reading)) (b : Buf)
    (cs : nat * nat) : Buf :=
  let '(ch, slot) := cs in
  match s3 !! ch with
  | Some (Some e) =>
      _push_slot ts rh_slots (Some (rh e)) slot
        (_push_slot ts temp_slots (Some (temp_c e)) slot b)
  | _ => b
  end.

(** Lines 257-263: the SHTC3 channels of the snapshot go to their slots. *)
Definition push_shtc3 (ts : Q) (s3 : gmap nat (option th_reading)) (b : Buf) : Buf :=
  fold_left (push_channel ts s3) ch_to_slot b.

(** Lines 257-277: the whole snapshot is loaded into the buffer. *)
Definition push_snapshot (ts : Q) (snap : Latest) (b : Buf) : Buf :=
  let b := push_shtc3 ts (shtc3 snap) b in
  let b :=
    match bme280 snap with
    | Some r =>
        _push ts bme_pres (Some (press_hpa r))
          (_push ts bme_rh (Some (bme_rh_pct r))
             (_push ts bme_temp (Some (bme_temp_c r)) b))
    | None => b
    end in
  let b :=
    match mhz19b snap with
    | Some mh => _push ts co2 (Some (inject_Z (mhz_co2 mh))) b
    | None => b
    end in
  match gp2y snap with
  | Some gp => _push ts pm25 (Some (pm_ugm3 gp)) b
  | None => b
  end.

(** Lines 283-287: is there a sample in one of the watched sequences? *)
Definition have_slot (b : Buf) : bool :=
  existsb (λ dq : deque, 1 <=? length dq) (map snd (map_to_list (buf_temp_slots b))).
Definition have_co2 (b : Buf) : bool := 1 <=? length (buf_co2 b).
Definition have_pm (b : Buf) : bool := 1 <=? length (buf_pm25 b).
Definition have_pres (b : Buf) : bool := 1 <=? length (buf_bme_pres b).

(** The local variables of [publisher] that live across iterations, and the
    global [buf], which only the publisher touches. *)
Record pub_state := {
  first_window_start : option Q;
  t0 : Q;
  buf : Buf;
}.

(** What one iteration receives from outside: the clock reading, the
    snapshot of [latest], and for the i-th destination whether the client's
    publish call returns or raises. *)
Record tick_input := {
  now : Q;
  snap : Latest;
  publish_result : nat → outcome unit;
}.

(** Line 291: the publish condition. *)
Definition publish_due (now : Q) (first_window_start : option Q) (t0 : Q) : bool :=
  match first_window_start with
  | Some f => Qle_bool BUF_WINDOW_S (now - t0) && Qle_bool BUF_WINDOW_S (now - f)
  | None => false
  end.

(** Lines 250-344: load, prune, warm-up bookkeeping and, when a publish is
    due, the payload of this cycle. *)
Definition tick_update (inp : tick_input) (st : pub_state) : pub_state * option Payload :=
  let now := now inp in
  let ts := now in
  let b := push_snapshot ts (snap inp) (buf st) in
  let b := _prune_now now b in
  let fws :=
    match first_window_start st with
    | None =>
        if have_slot b || have_co2 b || have_pm b || have_pres b
        then Some now else None
    | Some f => Some f
    end in
  if publish_due now fws (t0 st) then
    ({| first_window_start := fws; t0 := now; buf := b |},
     Some (shape (aggregate b)))
  else
    ({| first_window_start := fws; t0 := t0 st; buf := b |}, None).

Section Publisher.
(** [TOPICS_PUB] comes from [config.py]; the broker address from the
    environment. *)
Variable TOPICS_PUB : list (string * Z).
Variable BROKER_HOST : string.
Variable BROKER_PORT : Z.
Variable period_s : Q.

(** Lines 347-352: the loop over the destinations, the i-th one first. *)
Fixpoint publish_all (mqtt : MQTTClient) (msg : Payload)
    (res : nat → outcome unit) (i : nat) (topics : list (string * Z))
  : M Payload unit :=
  match topics with
  | [] => ret tt
  | (topic, qos) :: rest =>
      try_except
        (emit (Print (LogMqttSend topic)) ;;;
         MQTTClient_publish mqtt (res i) topic msg qos)
        (λ e, emit (Print (LogMqttPublishError topic e))) ;;;
      publish_all mqtt msg res (S i) rest
  end.

(** Lines 346-354: publish when there is a payload, then sleep. *)
Definition tick_emit (mqtt : MQTTClient) (inp : tick_input) (msg : option Payload)
  : M Payload unit :=
  match msg with
  | Some msg =>
      publish_all mqtt msg (publish_result inp) 0 TOPICS_PUB ;;;
      emit (Sleep period_s)
  | None => emit (Sleep period_s)
  end.

(** One iteration of the [while] loop. *)
Definition publisher_tick (mqtt : MQTTClient) (inp : tick_input) (st : pub_state)
  : M Payload pub_state :=
  let '(st', msg) := tick_update inp st in
  tick_emit mqtt inp msg ;;; ret st'.

(** The [while not stop_event.is_set()] loop: one iteration per element
    of [ticks], after which the stop event is set. *)
Fixpoint publisher_loop (mqtt : MQTTClient) (ticks : list tick_input)
    (st : pub_state) : M Payload pub_state :=
  match ticks with
  | [] => ret st
  | inp :: rest =>
      bind (publisher_tick mqtt inp st) (λ st', publisher_loop mqtt rest st')
  end.

(** The thread function.  [connect_result] is what the client's connect
    call does; [start] is the clock reading taken before the loop. *)
Definition publisher (connect_result : outcome unit) (start : Q)
    (ticks : list tick_input) : M Payload unit :=
  let mqtt := MQTTClient_init BROKER_HOST BROKER_PORT TOPICS_PUB in
  bind
    (try_except
       (MQTTClient_connect mqtt connect_result ;;;
        emit (Print LogMqttConnected) ;;;
        ret true)
       (λ e, emit (Print (LogMqttConnectError e)) ;;; ret false))
    (λ connected,
       if connected : bool then
         publisher_loop mqtt ticks
           {| first_window_start := None; t0 := start; buf := buf0 |} ;;;
         ret tt
       else ret tt).
End Publisher.

(** The publish cycles of a run, each with the clock reading of its
    iteration, read off the state alone. *)
Fixpoint publications (ticks : list tick_input) (st : pub_state) : list (Q * Payload) :=
  match ticks with
  | [] => []
  | inp :: rest =>
      let '(st', msg) := tick_update inp st in
      match msg with
      | Some p => (now inp, p) :: publications rest st'
      | None => publications rest st'
      end
  end.

(** The publisher state after the iterations [ticks]. *)
Definition run_updates (ticks : list tick_input) (st : pub_state) : pub_state :=
  fold_left (λ st inp, fst (tick_update inp st)) ticks st.

(** Does the snapshot of an iteration put a sample into the buffer? *)
Definition gives_sample (inp : tick_input) : bool :=
  existsb (λ '(ch, _), match shtc3 (snap inp) !! ch with
                       | Some (Some _) => true | _ => false end) ch_to_slot
  || match bme280 (snap inp) with Some _ => true | None => false end
  || match mhz19b (snap inp) with Some _ => true | None => false end
  || match gp2y (snap inp) with Some _ => true | None => false end.

(** Clock reading of the first iteration that put a sample into the buffer. *)
Fixpoint first_sample_time (ticks : list tick_input) : option Q :=
  match ticks with
  | [] => None
  | inp :: rest => if gives_sample inp then Some (now inp) else first_sample_time rest
  end.

(** ** Sampling workers ([main.py], lines 128-232) *)

Definition set_sht41 (v : option th_reading) (l : Latest) : Latest :=
  {| timestamp := timestamp l; bme280 := bme280 l; sht41 := v;
     shtc3 := shtc3 l; gp2y := gp2y l; mhz19b := mhz19b l |}.

Definition set_shtc3 (ch : nat) (v : option th_reading) (l : Latest) : Latest :=
  {| timestamp := timestamp l; bme280 := bme280 l; sht41 := sht41 l;
     shtc3 := <[ch := v]> (shtc3 l); gp2y := gp2y l; mhz19b := mhz19b l |}.

Definition set_bme280 (v : option bme_reading) (l : Latest) : Latest :=
  {| timestamp := timestamp l; bme280 := v; sht41 := sht41 l;
     shtc3 := shtc3 l; gp2y := gp2y l; mhz19b := mhz19b l |}.

Definition set_gp2y (v : option gp2y_reading) (l : Latest) : Latest :=
  {| timestamp := timestamp l; bme280 := bme280 l; sht41 := sht41 l;
     shtc3 := shtc3 l; gp2y := v; mhz19b := mhz19b l |}.

Definition set_mhz19b (v : option mhz_reading) (l : Latest) : Latest :=
  {| timestamp := timestamp l; bme280 := bme280 l; sht41 := sht41 l;
     shtc3 := shtc3 l; gp2y := gp2y l; mhz19b := v |}.

(** [SHT41.TARGET_CHANNEL] and [SHTC3.TARGET_CHANNELS]. *)
Definition TARGET_CHANNEL : nat := 1.
Definition TARGET_CHANNELS : list nat := [2; 3; 4; 5].

(** A worker step yields the new [latest] and the lines it printed. *)
Definition worker_step : Type := Latest * list log_line.

(** Lines 132-141.  [read] is what the bus transaction (select the channel,
    read the SHT41) does: it returns [(t, h)] or raises. *)
Definition sht41_step (read : outcome (Q * Q)) (l : Latest) : worker_step :=
  match read with
  | Returns (t, h) => (set_sht41 (Some {| temp_c := t; rh := h |}) l, [])
  | Raises e => (set_sht41 None l, [LogSht41Error e])
  end.

(** Lines 144-153, for one channel. *)
Definition shtc3_step (ch : nat) (read : outcome (Q * Q)) (l : Latest) : worker_step :=
  match read with
  | Returns (t, h) => (set_shtc3 ch (Some {| temp_c := t; rh := h |}) l, [])
  | Raises e => (set_shtc3 ch None l, [LogShtc3Error ch e])
  end.

(** Lines 143-153: [for ch in ch_list_shtc3]. *)
Fixpoint shtc3_steps (chs : list nat) (read : nat → outcome (Q * Q)) (l : Latest)
  : worker_step :=
  match chs with
  | [] => (l, [])
  | ch :: rest =>
      let '(l1, p1) := shtc3_step ch (read ch) l in
      let '(l2, p2) := shtc3_steps rest read l1 in
      (l2, p1 ++ p2)
  end.

(** One iteration of [worker_mux_shts]. *)
Definition worker_mux_shts_iter (read41 : outcome (Q * Q))
    (read3 : nat → outcome (Q * Q)) (l : Latest) : worker_step :=
  let '(l1, p1) := sht41_step read41 l in
  let '(l2, p2) := shtc3_steps TARGET_CHANNELS read3 l1 in
  (l2, p1 ++ p2).

(** Lines 174-191.  [_bme] is the driver object, [None] when the
    initialisation failed; [read] returns
    [(temperature, humidity, pressure, altitude)] or raises. *)
Definition bme_step (_bme : option unit) (read : outcome (Q * Q * Q * Q))
    (l : Latest) : worker_step :=
  match _bme with
  | Some _ =>
      match read with
      | Returns (temp, hum, pres, alt) =>
          (set_bme280
             (Some {| bme_temp_c := py_round temp 2; bme_rh_pct := py_round hum 2;
                      press_hpa := py_round pres 2; alt_m := py_round alt 2 |}) l,
           [])
      | Raises e => (set_bme280 None l, [LogBmeReadError e])
      end
  | None => (l, [])
  end.

(** Lines 193-201.  [read] is [gp2y_mod.read_dust()]. *)
Definition gp2y_step (read : outcome (Q * Q)) (l : Latest) : worker_step :=
  match read with
  | Returns (v, ug) =>
      (set_gp2y (Some {| vout := py_round v 5; pm_ugm3 := py_round ug 1 |}) l, [])
  | Raises e => (set_gp2y None l, [LogGp2yReadError e])
  end.

(** One iteration of [worker_bme_gp2y]. *)
Definition worker_bme_gp2y_iter (_bme : option unit)
    (read_bme : outcome (Q * Q * Q * Q)) (read_dust : outcome (Q * Q))
    (l : Latest) : worker_step :=
  let '(l1, p1) := bme_step _bme read_bme l in
  let '(l2, p2) := gp2y_step read_dust l1 in
  (l2, p1 ++ p2).

(** A frame of the CO2 sensor: [(co2, temp, raw bytes)]. *)
Definition mhz_frame : Type := Z * Z * list Z.

(** One iteration of [worker_mhz] (lines 216-230).  [ser] is the serial
    port, [None] when opening it failed; [read] is [read_mhz19(ser)], which
    returns a frame, returns [None] on an invalid response, or raises;
    [last_valid_result] is the module variable of the sensor module, which
    [init] sets and the worker only reads. *)
Definition worker_mhz_iter (ser : option unit) (read : outcome (option mhz_frame))
    (last_valid_result : option mhz_frame) (l : Latest) : worker_step :=
  let result := match ser with Some _ => read | None => Returns None end in
  match result with
  | Returns result =>
      let reading :=
        match result with
        | Some (c, t, _) => Some (c, t)
        | None =>
            match last_valid_result with
            | Some (c, t, _) => Some (c, t)
            | None => None
            end
        end in
      (set_mhz19b
         (match reading with
          | None => None
          | Some (c, t) => Some {| mhz_co2 := c; mhz_temp := t |}
          end) l,
       [])
  | Raises e => (set_mhz19b None l, [LogMhzReadError e])
  end.


(** ** Sensor adapters ([src/sensor]) *)

(** Sequencing of calls that return or raise. *)
Definition obind {A B} (o : outcome A) (f : A → outcome B) : outcome B :=
  match o with
  | Returns a => f a
  | Raises e => Raises e
  end.

(** [data[i]] on a list of ints: [IndexError] past the end. *)
Definition py_index (data : list Z) (i : nat) : outcome Z :=
  match data !! i with
  | Some x => Returns x
  | None => Raises (Exception "IndexError")
  end.

(** The Sensirion CRC-8 loop, which [SHTC3.crc8] and [SHT41.validate_crc]
    both spell out: one of the 8 rounds, the work on one byte, the whole
    list. *)
Definition crc8_round (crc : Z) : Z :=
  Z.land (if (Z.land crc 0x80 =? 0)%Z
          then Z.shiftl crc 1
          else Z.lxor (Z.shiftl crc 1) 0x31) 0xFF.

Definition crc8_byte (crc byte : Z) : Z :=
  Nat.iter 8 crc8_round (Z.lxor crc byte).

Definition crc8 (data : list Z) : Z := fold_left crc8_byte data 0xFF%Z.

(** The datasheet conversion shared by [read_sht41] and [measure]:
    [round(-45 + 175 * (t_raw / 65535.0), 1)] and
    [round(100 * (h_raw / 65535.0), 1)]. *)
Definition sht_word (hi lo : Z) : Z := Z.lor (Z.shiftl hi 8) lo.

Definition sht_temperature (t_raw : Z) : Q :=
  py_round (-45 + 175 * (inject_Z t_raw / 65535)) 1.

Definition sht_humidity (h_raw : Z) : Q :=
  py_round (100 * (inject_Z h_raw / 65535)) 1.

Module SHT41.

Definition validate_crc (data_bytes : list Z) (crc_value : Z) : bool :=
  (crc8 data_bytes =? crc_value)%Z.

(** [read_sht41(bus)].  [bus] is what the command write and the 6-byte read
    do: the bytes received, or the [OSError] of the bus. *)
Definition read_sht41 (bus : outcome (list Z)) : outcome (Q * Q) :=
  obind bus (λ data,
    if negb (length data =? 6) then Raises (Exception "RuntimeError")
    else if negb (validate_crc (py_slice data 0 2) (nth 2 data 0%Z))
            || negb (validate_crc (py_slice data 3 5) (nth 5 data 0%Z))
    then Raises (Exception "ValueError")
    else
      let t_raw := sht_word (nth 0 data 0%Z) (nth 1 data 0%Z) in
      let h_raw := sht_word (nth 3 data 0%Z) (nth 4 data 0%Z) in
      Returns (sht_temperature t_raw, sht_humidity h_raw)).

End SHT41.

Module SHTC3.

(** [verify_wake(bus)]: [bus] is the ID request and its 3-byte read; any
    exception becomes [False]. *)
Definition verify_wake (bus : outcome (list Z)) : bool :=
  match bus with
  | Returns id_bytes =>
      (length id_bytes =? 3)
      && (crc8 (py_slice id_bytes 0 2) =? nth 2 id_bytes 0)%Z
  | Raises _ => false
  end.

(** [measure(bus)]: no length check here, so the checksum bytes are read
    with [data[2]] and [data[5]] as they come. *)
Definition measure (bus : outcome (list Z)) : outcome (Q * Q) :=
  obind bus (λ data,
    obind (py_index data 2) (λ c2,
      if negb (crc8 (py_slice data 0 2) =? c2)%Z
      then Raises (Exception "ValueError")
      else
        obind (py_index data 5) (λ c5,
          if negb (crc8 (py_slice data 3 5) =? c5)%Z
          then Raises (Exception "ValueError")
          else
            obind (py_index data 0) (λ d0,
            obind (py_index data 1) (λ d1,
            obind (py_index data 3) (λ d3,
            obind (py_index data 4) (λ d4,
              Returns (sht_temperature (sht_word d0 d1),
                       sht_humidity (sht_word d3 d4))))))))).

(** What the bus does during one [read_single_sensor]. *)
Record sensor_io := {
  io_reset : outcome unit;
  io_wake : outcome unit;
  io_id : outcome (list Z);
  io_measure : outcome (list Z);
  io_sleep : outcome unit;
}.

(** [read_single_sensor(bus, verify)]. *)
Definition read_single_sensor (io : sensor_io) (verify : bool) : outcome (Q * Q) :=
  obind (io_reset io) (λ _,
  obind (io_wake io) (λ _,
    if verify && negb (verify_wake (io_id io))
    then Raises (Exception "RuntimeError")
    else
      obind (measure (io_measure io)) (λ '(temp, hum),
      obind (io_sleep io) (λ _,
        Returns (temp, hum))))).

End SHTC3.

Module MH_Z19B.

(** [read_mhz19(ser)].  [ser] is what the serial port does for the command
    write and the 9-byte read: the bytes received (fewer on a timeout), or
    the exception of the port. *)
Definition read_mhz19 (ser : outcome (list Z)) : outcome (option mhz_frame) :=
  obind ser (λ resp,
    if negb (length resp =? 9) || negb (nth 0 resp 0 =? 0xFF)%Z
       || negb (nth 1 resp 0 =? 0x86)%Z
    then Returns None
    else
      let co2 := (nth 2 resp 0 * 256 + nth 3 resp 0)%Z in
      let temp := (nth 4 resp 0 - 40)%Z in
      Returns (Some (co2, temp, resp))).

(** [wait_for_sensor_response(ser, timeout)].  Each element of [attempts]
    is one round of the loop: what the port does, and the reading of
    [time.time()] taken after it.  The outer [None] says that the loop is
    still going when the attempts run out. *)
Fixpoint wait_for_sensor_response (attempts : list (outcome (list Z) * Q))
    (start_time timeout : Q) : outcome (option (option mhz_frame)) :=
  match attempts with
  | [] => Returns None
  | (ser, clock) :: rest =>
      obind (read_mhz19 ser) (λ result,
        match result with
        | Some frame => Returns (Some (Some frame))
        | None =>
            if Qltb timeout (clock - start_time) then Returns (Some None)
            else wait_for_sensor_response rest start_time timeout
        end)
  end.

(** [init()]: the port is opened, the first valid response is awaited for
    10 seconds, and a response found goes to [last_valid_result].  The
    result holds the value of [last_valid_result] after the call, given
    the one before; [None] as before: still waiting. *)
Definition init (open : outcome unit) (attempts : list (outcome (list Z) * Q))
    (start_time : Q) (last_valid_result : option mhz_frame)
  : outcome (option (option mhz_frame)) :=
  obind open (λ _,
  obind (wait_for_sensor_response attempts start_time 10) (λ r,
    match r with
    | None => Returns None
    | Some first_response =>
        Returns (Some (match first_response with
                       | Some frame => Some frame
                       | None => last_valid_result
                       end))
    end)).

End MH_Z19B.

Module GP2Y1010AU0F.

Definition NO_DUST_VOLT : Q := 78 # 10000.
Definition SAMPLES : nat := 10.
Definition MAX_VALID_UG : Q := 500.

(** [max(a, b)] on floats: the first argument unless the second is larger. *)
Definition py_max (a b : Q) : Q := if Qltb a b then b else a.

Section WithSqrt.
(** The square root of the floating-point library, used by
    [statistics.stdev]. *)
Variable sqrt : Q → Q.

(** [statistics.mean] and [statistics.stdev] of the standard library, on
    at least one and at least two values. *)
Definition statistics_mean (data : list Q) : Q := (py_sum data / py_len data)%Q.

Definition statistics_stdev (data : list Q) : Q :=
  let mean := statistics_mean data in
  sqrt (py_sum (map (λ x : Q, (x - mean) * (x - mean))%Q data) / (py_len data - 1))%Q.

(** [reject_outliers(data, m)]. *)
Definition reject_outliers (data : list Q) (m : Q) : list Q :=
  if length data <? 2 then data
  else
    let mean := statistics_mean data in
    let stdev := statistics_stdev data in
    List.filter (λ v : Q, Qle_bool (Qabs (v - mean)) (m * stdev)) data.

(** Steps 4 to 6 of [read_dust], from the clamped voltages on. *)
Definition dust_from_voltages (voltages : list Q) : Q * Q :=
  let voltages := reject_outliers voltages 2 in
  let avg_v := match voltages with
               | [] => 0
               | _ => py_sum voltages / py_len voltages
               end%Q in
  let density_mg := py_max 0 ((avg_v - NO_DUST_VOLT) / (5 # 1000)) in
  let density_ug := (density_mg * 1000)%Q in
  let density_ug := if Qltb MAX_VALID_UG density_ug then 0%Q else density_ug in
  (avg_v, density_ug).

(** The sampling loop of [read_dust]: [chan_voltage i] is the i-th
    reading of the converter, or the exception of the LED pin or the bus
    in that round. *)
Fixpoint sample_voltages (chan_voltage : nat → outcome Q) (i n : nat)
  : outcome (list Q) :=
  match n with
  | O => Returns []
  | S n' =>
      obind (chan_voltage i) (λ v,
      obind (sample_voltages chan_voltage (S i) n') (λ rest,
        Returns (py_max 0 v :: rest)))
  end.

(** [read_dust()].  [init_result] is the lazy initialisation of the pin
    and the converter. *)
Definition read_dust (init_result : outcome unit) (chan_voltage : nat → outcome Q)
  : outcome (Q * Q) :=
  obind init_result (λ _,
  obind (sample_voltages chan_voltage 0 SAMPLES) (λ voltages,
    Returns (dust_from_voltages voltages))).
End WithSqrt.

End GP2Y1010AU0F.

(** The bus transactions of the workers, built from the adapters. *)
Definition sht41_transaction (select : outcome unit) (bus : outcome (list Z))
  : outcome (Q * Q) :=
  obind select (λ _, SHT41.read_sht41 bus).

Definition shtc3_transaction (select : outcome unit) (io : SHTC3.sensor_io)
  : outcome (Q * Q) :=
  obind select (λ _, SHTC3.read_single_sensor io true).

(** ** Specification predicates *)

(** A deque whose timestamps never decrease from left to right, which is
    how the publisher fills it from a monotonic clock. *)
Definition time_ordered (d : deque) : Prop :=
  Sorted (λ x y : Q * Q, (fst x <= fst y)%Q) d.

(** A time-ordered deque with no timestamp above [ub]. *)
Definition ordered_upto (ub : Q) (d : deque) : Prop :=
  time_ordered d ∧ Forall (λ e : Q * Q, (fst e <= ub)%Q) d.

(** Every sequence of the buffer is time-ordered and bounded by [ub]. *)
Definition buf_ordered (ub : Q) (b : Buf) : Prop :=
  ∀ m d, get_seq m b = Some d → ordered_upto ub d.

(** The clock readings of the iterations never decrease. *)
Definition clock_monotone (ticks : list tick_input) : Prop :=
  StronglySorted (λ x y : tick_input, (now x <= now y)%Q) ticks.

(** What a trace shows: the publish calls that reached the client
    library, the lines printed, the connect calls and the sleeps. *)
Definition client_publishes {Msg} (tr : list (event Msg)) : list (string * Msg * Z) :=
  flat_map (λ ev, match ev with
                  | ClientPublish topic payload qos => [(topic, payload, qos)]
                  | _ => []
                  end) tr.

Definition printed {Msg} (tr : list (event Msg)) : list log_line :=
  flat_map (λ ev, match ev with Print l => [l] | _ => [] end) tr.

Definition client_connects {Msg} (tr : list (event Msg)) : nat :=
  length (flat_map (λ ev, match ev with ClientConnect h p => [(h, p)] | _ => [] end) tr).

Definition sleeps {Msg} (tr : list (event Msg)) : nat :=
  length (flat_map (λ ev, match ev with Sleep p => [p] | _ => [] end) tr).

(** The state in which [publisher] enters its loop. *)
Definition pub_state0 (start : Q) : pub_state :=
  {| first_window_start := None; t0 := start; buf := buf0 |}.

(** A value that fits in one byte. *)
Definition is_byte (b : Z) : Prop := (0 <= b < 256)%Z.

(** Number of 1 bits among the 8 low bits. *)
Definition popcount8 (b : Z) : nat :=
  length (List.filter (Z.testbit b) (map Z.of_nat (seq 0 8))).

(** The entry a worker stores for a temperature and humidity read. *)
Definition th_entry (r : outcome (Q * Q)) : option th_reading :=
  match r with
  | Returns (t, h) => Some {| temp_c := t; rh := h |}
  | Raises _ => None
  end.

(** A reading inside the range of the SHT41 and SHTC3 sensors. *)
Definition th_in_range (r : th_reading) : Prop :=
  (-45 <= temp_c r <= 130)%Q ∧ (0 <= rh r <= 100)%Q.

(** Clock reading of the last publish cycle of a run, or the time at which
    the loop was entered when there was none: the value of [t0]. *)
Definition last_publish_time (start : Q) (ticks : list tick_input) : Q :=
  List.last (map fst (publications ticks (pub_state0 start))) start.

(** The field of an SHTC3 entry that goes to a slot dictionary. *)
Definition th_field (key : slot_key) (e : th_reading) : Q :=
  match key with
  | temp_slots => temp_c e
  | rh_slots => rh e
  end.

(** Lines 257-277 read per sequence: the value, if any, that the loading
    of a snapshot appends to the sequence of a metric.  Slot [i] is fed by
    multiplexer channel [i + 2]. *)
Definition sample_of (m : metric) (l : Latest) : option Q :=
  match m with
  | SlotSeq key slot =>
      if slot <? 4 then
        match shtc3 l !! (slot + 2) with
        | Some (Some e) => Some (th_field key e)
        | _ => None
        end
      else None
  | FlatSeq bme_temp => bme_temp_c <$> bme280 l
  | FlatSeq bme_rh => bme_rh_pct <$> bme280 l
  | FlatSeq bme_pres => press_hpa <$> bme280 l
  | FlatSeq co2 => (λ mh, inject_Z (mhz_co2 mh)) <$> mhz19b l
  | FlatSeq pm25 => pm_ugm3 <$> gp2y l
  end.

(** The timestamped sample that one iteration contributes to a metric. *)
Definition tick_sample (m : metric) (inp : tick_input) : deque :=
  match sample_of m (snap inp) with
  | Some v => [(now inp, v)]
  | None => []
  end.

(** All samples of a metric that a run has seen, oldest first. *)
Definition history (m : metric) (ticks : list tick_input) : deque :=
  flat_map (tick_sample m) ticks.

(** The samples of a run that are not older than [cutoff]. *)
Definition window_of (m : metric) (ticks : list tick_input) (cutoff : Q) : deque :=
  List.filter (λ e : Q * Q, Qle_bool cutoff (fst e)) (history m ticks).

(** What the publisher reads of a snapshot: the SHTC3 entries of the
    channels 2 to 5, the pressure, the CO2 value and the dust density. *)
Definition payload_inputs (l : Latest)
    : list (option th_reading) * option Q * option Z * option Q :=
  (map (λ cs : nat * nat, mjoin (shtc3 l !! cs.1)) ch_to_slot,
   press_hpa <$> bme280 l, mhz_co2 <$> mhz19b l, pm_ugm3 <$> gp2y l).

(** The part of the buffer that the warm-up test and the aggregation read. *)
Definition payload_view (b : Buf)
    : gmap nat deque * gmap nat deque * deque * deque * deque :=
  (buf_temp_slots b, buf_rh_slots b, buf_bme_pres b, buf_co2 b, buf_pm25 b).




(* ================================================================== *)
(** * Properties *)

(** ** Sorting *)

Lemma Qltb_lt a b : Qltb a b = true ↔ (a < b)%Q.
Proof.
  unfold Qltb. rewrite negb_true_iff. split.
  - intros H. apply Qnot_le_lt. intros Hle.
    apply Qle_bool_iff in Hle. congruence.
  - intros H. destruct (Qle_bool b a) eqn:E; [|done].
    apply Qle_bool_iff in E. apply Qle_not_lt in E. contradiction.
Qed.

Lemma Qltb_ge a b : Qltb a b = false ↔ (b <= a)%Q.
Proof.
  unfold Qltb. rewrite negb_false_iff. apply Qle_bool_iff.
Qed.

Lemma insert_sorted_perm x l : Permutation (insert_sorted x l) (x :: l).
Proof.
  induction l as [|y l IH]; simpl; [done|].
  destruct (Qle_bool x y); [done|].
  rewrite IH. apply perm_swap.
Qed.

Lemma sorted_perm values : Permutation (sorted values) values.
Proof.
  induction values as [|x l IH]; simpl; [done|].
  rewrite insert_sorted_perm. by constructor.
Qed.

Lemma sorted_length values : length (sorted values) = length values.
Proof. apply Permutation_length, sorted_perm. Qed.

Lemma insert_sorted_hdrel a x l :
  (a <= x)%Q → HdRel Qle a l → HdRel Qle a (insert_sorted x l).
Proof.
  intros Hax Hl. destruct l as [|y l]; simpl; [by constructor|].
  destruct (Qle_bool x y); constructor; [done|].
  by inversion Hl.
Qed.

Lemma insert_sorted_Sorted x l : Sorted Qle l → Sorted Qle (insert_sorted x l).
Proof.
  induction 1 as [|y l Hs IH Hhd]; simpl; [by repeat constructor|].
  destruct (Qle_bool x y) eqn:E.
  - apply Qle_bool_iff in E. by repeat constructor.
  - constructor; [done|].
    apply insert_sorted_hdrel; [|done].
    apply Qlt_le_weak, Qltb_lt. unfold Qltb. by rewrite E.
Qed.

Lemma sorted_Sorted values : Sorted Qle (sorted values).
Proof.
  induction values as [|x l IH]; simpl; [constructor|].
  by apply insert_sorted_Sorted.
Qed.

(** ** Rounding *)

Lemma round_half_even_close (y : Q) :
  (- (1 # 2) <= inject_Z (round_half_even y) - y <= 1 # 2)%Q.
Proof.
  unfold round_half_even.
  pose proof (Qfloor_le y) as Hlo. pose proof (Qlt_floor y) as Hhi.
  rewrite inject_Z_plus in Hhi. change (inject_Z 1) with 1%Q in Hhi.
  assert (Hup : ∀ z, inject_Z (z + 1) = (inject_Z z + 1)%Q)
    by (intros z; apply inject_Z_plus).
  destruct (Qltb (y - inject_Z (Qfloor y)) (1 # 2)) eqn:E1;
    [apply Qltb_lt in E1|apply Qltb_ge in E1;
     destruct (Qltb (1 # 2) (y - inject_Z (Qfloor y))) eqn:E2;
       [apply Qltb_lt in E2|apply Qltb_ge in E2; destruct (Z.even (Qfloor y))]];
    rewrite ?Hup; revert Hlo Hhi E1; try revert E2;
    generalize (inject_Z (Qfloor y)) as f; intros f; intros; split; lra.
Qed.

(** [round(x, 2)] is a whole number of hundredths, at most half a hundredth
    away from [x]. *)
Lemma py_round_2_spec (x : Q) :
  (py_round x 2 == round_half_even (x * 100) # 100)%Q ∧
  (- (1 # 200) <= py_round x 2 - x <= 1 # 200)%Q.
Proof.
  assert (Heq : (py_round x 2 == round_half_even (x * 100) # 100)%Q).
  { unfold py_round. change (Pos.pow 10 (Pos.of_nat 2)) with 100%positive.
    apply Qred_correct. }
  split; [exact Heq|].
  pose proof (round_half_even_close (x * 100)) as [Hlo Hhi].
  rewrite Heq, (Qmake_Qdiv (round_half_even (x * 100)) 100). unfold Qdiv.
  change (/ inject_Z (Z.pos 100))%Q with (1 # 100)%Q.
  revert Hlo Hhi. generalize (inject_Z (round_half_even (x * 100))) as r.
  intros r Hlo Hhi. split; lra.
Qed.

(** ** Reductions *)

Lemma py_int_len_tenth {A} (values : list A) :
  py_int (py_len values * TRIM_FRAC) = Z.of_nat (length values / 10).
Proof.
  unfold py_int, py_len, TRIM_FRAC, Qmult, inject_Z. cbn [Qnum Qden].
  change (Z.pos (1 * 10)) with (Z.of_nat 10).
  rewrite Z.mul_1_r, Z.quot_div_nonneg by lia.
  by rewrite Nat2Z.inj_div.
Qed.

Lemma floor_len_tenth {A} (values : list A) :
  Qfloor (py_len values * TRIM_FRAC) = Z.of_nat (length values / 10).
Proof.
  unfold py_len, TRIM_FRAC, Qmult, inject_Z, Qfloor. cbn [Qnum Qden].
  change (Z.pos (1 * 10)) with (Z.of_nat 10).
  rewrite Z.mul_1_r. by rewrite Nat2Z.inj_div.
Qed.

Lemma py_slice_trim {A} (l : list A) (n k : nat) :
  length l = n → 2 * k ≤ n →
  py_slice l (Z.of_nat k) (Z.of_nat n - Z.of_nat k) = drop k (take (n - k) l).
Proof.
  intros Hn Hk. unfold py_slice, slice_bound. rewrite Hn.
  destruct (Z.ltb_spec (Z.of_nat k) 0); [lia|].
  destruct (Z.ltb_spec (Z.of_nat n - Z.of_nat k) 0); [lia|].
  f_equal; [lia|]. f_equal. lia.
Qed.

Lemma mean_safe_cons x l : _mean_safe (x :: l) = Some (plain_mean (x :: l)).
Proof. reflexivity. Qed.

(** What [_trimmed_mean_safe] does on a window of at least 5 samples whose
    tenth is not zero. *)
Lemma trimmed_mean_trims values :
  5 ≤ length values → length values / 10 ≠ 0 →
  let k := length values / 10 in
  let mid := drop k (take (length values - k) (sorted values)) in
  mid ≠ [] ∧ _trimmed_mean_safe values = Some (plain_mean mid).
Proof.
  intros Hn Hk k mid.
  assert (Hk2 : 2 * k ≤ length values).
  { subst k. pose proof (Nat.div_mod_eq (length values) 10). lia. }
  assert (Hlen : length mid = length values - 2 * k).
  { subst mid. rewrite length_drop, length_take, sorted_length. lia. }
  assert (Hpos : 0 < k) by (subst k; lia).
  assert (Hk10 : 10 * k ≤ length values).
  { subst k. pose proof (Nat.div_mod_eq (length values) 10). lia. }
  assert (Hne : mid ≠ []).
  { intros E. rewrite E in Hlen. change (length (@nil Q)) with 0 in Hlen. lia. }
  split; [exact Hne|].
  unfold _trimmed_mean_safe, _trimmed_mean_safe_frac.
  destruct values as [|x l]; [simpl in Hn; lia|].
  destruct (Nat.ltb_spec (length (x :: l)) MIN_SAMPLES_FOR_TRIM) as [Hlt|_];
    [unfold MIN_SAMPLES_FOR_TRIM in Hlt; lia|].
  rewrite py_int_len_tenth.
  destruct (Z.eqb_spec (Z.of_nat (length (x :: l) / 10)) 0) as [E0|_]; [lia|].
  subst mid k.
  rewrite (py_slice_trim _ (length (x :: l)) _ (sorted_length _) Hk2).
  destruct (drop _ _) as [|m mid']; [done|]. reflexivity.
Qed.

Lemma split_at_nth (s : list Q) (i : nat) :
  i < length s → s = take i s ++ nth i s 0%Q :: drop (S i) s.
Proof.
  intros Hi. destruct (lookup_lt_is_Some_2 s i Hi) as [x Hx].
  rewrite (nth_lookup_Some _ _ _ _ Hx).
  symmetry. by apply take_drop_middle.
Qed.

Lemma statistics_median_odd data q :
  length data = 2 * q + 1 →
  statistics_median data = Some (nth q (sorted data) 0%Q).
Proof.
  intros Hn. unfold statistics_median. rewrite sorted_length, Hn.
  destruct (Nat.eqb_spec (2 * q + 1) 0) as [E|_]; [lia|].
  replace ((2 * q + 1) mod 2) with 1
    by (rewrite Nat.add_comm, Nat.mul_comm, Nat.Div0.mod_add; reflexivity).
  replace ((2 * q + 1) / 2) with q; [reflexivity|].
  rewrite Nat.add_comm, Nat.mul_comm, Nat.div_add by lia. reflexivity.
Qed.

Lemma statistics_median_even data q :
  length data = 2 * q + 2 →
  statistics_median data
  = Some ((nth q (sorted data) 0 + nth (S q) (sorted data) 0) / 2)%Q.
Proof.
  intros Hn. unfold statistics_median. rewrite sorted_length, Hn.
  destruct (Nat.eqb_spec (2 * q + 2) 0) as [E|_]; [lia|].
  replace (2 * q + 2) with (0 + (S q) * 2) by lia.
  rewrite Nat.Div0.mod_add, Nat.div_add by lia.
  change (0 mod 2 =? 1) with false. change (0 / 2 + S q) with (S q).
  cbv iota. replace (S q - 1) with q by lia. reflexivity.
Qed.

(** C3: the median reduction returns the middle value of the sorted window
    when the sample count is odd and the average of the two central values
    when it is even, rounded to 2 decimals; the median of [400, 420, 440]
    is 420 and the median of [400, 420, 440, 460] is 430. *)
Theorem C3_median_middle_of_sorted (values : list Q) :
  values ≠ [] →
  (Nat.odd (length values) = true →
     ∃ lo m hi, sorted values = lo ++ m :: hi ∧ length lo = length hi ∧
       _median_safe values = Some (py_round m 2)) ∧
  (Nat.even (length values) = true →
     ∃ lo a b hi, sorted values = lo ++ a :: b :: hi ∧ length lo = length hi ∧
       _median_safe values = Some (py_round ((a + b) / 2) 2)) ∧
  Sorted Qle (sorted values) ∧ Permutation (sorted values) values ∧
  _median_safe [400; 420; 440]%Q = Some 420%Q ∧
  _median_safe [400; 420; 440; 460]%Q = Some 430%Q.
Proof.
  intros Hne.
  split; [|split; [|split; [apply sorted_Sorted|split; [apply sorted_perm|]]]].
  - intros Hodd. apply Nat.odd_spec in Hodd as [q Hq].
    assert (Hi : q < length (sorted values)) by (rewrite sorted_length; lia).
    exists (take q (sorted values)), (nth q (sorted values) 0%Q),
      (drop (S q) (sorted values)).
    split; [by apply split_at_nth|].
    split; [rewrite length_take, length_drop, sorted_length; lia|].
    destruct values as [|x l]; [done|].
    unfold _median_safe. by rewrite (statistics_median_odd _ q).
  - intros Heven. apply Nat.even_spec in Heven as [q Hq].
    destruct values as [|x l]; [done|].
    destruct q as [|q]; [simpl in Hq; lia|].
    assert (Hn : length (x :: l) = 2 * q + 2) by lia.
    assert (Hi : q < length (sorted (x :: l))) by (rewrite sorted_length; lia).
    assert (Hj : S q < length (sorted (x :: l))) by (rewrite sorted_length; lia).
    exists (take q (sorted (x :: l))), (nth q (sorted (x :: l)) 0%Q),
      (nth (S q) (sorted (x :: l)) 0%Q), (drop (S (S q)) (sorted (x :: l))).
    split.
    + rewrite (split_at_nth _ q Hi) at 1. do 2 f_equal.
      destruct (lookup_lt_is_Some_2 _ _ Hj) as [y Hy].
      rewrite (nth_lookup_Some _ _ _ _ Hy).
      by apply drop_S.
    + split; [rewrite length_take, length_drop, sorted_length; lia|].
      unfold _median_safe. by rewrite (statistics_median_even _ q).
  - split; reflexivity.
Qed.

(** The hypothesis of C3 holds of the four-sample window [400, 420, 440, 460]. *)
Lemma C3_median_witness :
  [400; 420; 440; 460]%Q ≠ [] ∧
  ∃ lo a b hi, sorted [400; 420; 440; 460]%Q = lo ++ a :: b :: hi ∧
    length lo = length hi ∧
    _median_safe [400; 420; 440; 460]%Q = Some (py_round ((a + b) / 2) 2).
Proof.
  split; [discriminate|].
  apply (C3_median_middle_of_sorted [400; 420; 440; 460]%Q); [discriminate|].
  reflexivity.
Defined.

Lemma trim_decomposition (s : list Q) (k : nat) :
  2 * k ≤ length s →
  s = take k s ++ drop k (take (length s - k) s) ++ drop (length s - k) s
  ∧ length (take k s) = k ∧ length (drop (length s - k) s) = k.
Proof.
  intros Hk. split; [|split].
  - rewrite <- (take_drop (length s - k) s) at 1.
    rewrite <- (take_drop k (take (length s - k) s)) at 1.
    rewrite take_take, Nat.min_l by lia. by rewrite <- app_assoc.
  - rewrite length_take. lia.
  - rewrite length_drop. lia.
Qed.

(** C2: on a non-empty window the trimmed mean is the plain mean below 5
    samples; from 5 samples on, with [k = floor(n * 0.10)], it is the plain
    mean when [k = 0] and otherwise the mean of the sorted window without
    its [k] lowest and [k] highest values (which never empties the window);
    every result is rounded to 2 decimals.  With 5 samples nothing is
    trimmed, with 10 samples exactly the lowest and the highest go. *)
Theorem C2_trimmed_mean (values : list Q) :
  values ≠ [] →
  let n := length values in
  let k := Z.to_nat (Qfloor (py_len values * TRIM_FRAC)) in
  (n < 5 → _trimmed_mean_safe values = Some (plain_mean values)) ∧
  (5 ≤ n → k = 0 → _trimmed_mean_safe values = Some (plain_mean values)) ∧
  (5 ≤ n → k ≠ 0 →
     ∃ lo mid hi, sorted values = lo ++ mid ++ hi ∧
       length lo = k ∧ length hi = k ∧ mid ≠ [] ∧
       _trimmed_mean_safe values = Some (plain_mean mid)) ∧
  (n = 5 → k = 0 ∧ _trimmed_mean_safe values = Some (plain_mean values)) ∧
  (n = 10 →
     ∃ lo mid hi, sorted values = [lo] ++ mid ++ [hi] ∧ length mid = 8 ∧
       _trimmed_mean_safe values = Some (plain_mean mid)) ∧
  Sorted Qle (sorted values) ∧ Permutation (sorted values) values.
Proof.
  intros Hne n k.
  assert (Hk : k = n / 10).
  { subst k n. rewrite floor_len_tenth. apply Nat2Z.id. }
  assert (Hsmall : n < 5 → _trimmed_mean_safe values = Some (plain_mean values)).
  { intros Hn. destruct values as [|x l]; [done|].
    unfold _trimmed_mean_safe, _trimmed_mean_safe_frac.
    destruct (Nat.ltb_spec (length (x :: l)) MIN_SAMPLES_FOR_TRIM) as [_|Hge];
      [reflexivity|].
    subst n. unfold MIN_SAMPLES_FOR_TRIM in Hge. lia. }
  assert (Hzero : 5 ≤ n → k = 0 →
                  _trimmed_mean_safe values = Some (plain_mean values)).
  { intros Hn Hk0. destruct values as [|x l]; [done|].
    unfold _trimmed_mean_safe, _trimmed_mean_safe_frac.
    destruct (Nat.ltb_spec (length (x :: l)) MIN_SAMPLES_FOR_TRIM) as [|_];
      [reflexivity|].
    rewrite py_int_len_tenth. fold n. rewrite <- Hk, Hk0. reflexivity. }
  assert (Htrim : 5 ≤ n → k ≠ 0 →
     ∃ lo mid hi, sorted values = lo ++ mid ++ hi ∧
       length lo = k ∧ length hi = k ∧ mid ≠ [] ∧
       _trimmed_mean_safe values = Some (plain_mean mid)).
  { intros Hn Hk0. rewrite Hk in Hk0.
    destruct (trimmed_mean_trims values Hn Hk0) as [Hmid Htm].
    assert (H2k : 2 * k ≤ length (sorted values)).
    { rewrite sorted_length, Hk. fold n.
      pose proof (Nat.div_mod_eq n 10). lia. }
    destruct (trim_decomposition (sorted values) k H2k) as (Hs & Hlo & Hhi).
    rewrite sorted_length in Hs, Hhi. fold n in Hs, Hhi.
    fold n in Hmid, Htm. rewrite <- Hk in Hmid, Htm.
    eexists _, _, _. split; [exact Hs|]. done. }
  split; [exact Hsmall|]. split; [exact Hzero|]. split; [exact Htrim|].
  split; [|split; [|split; [apply sorted_Sorted|apply sorted_perm]]].
  - intros H5. assert (Hk0 : k = 0) by (rewrite Hk, H5; reflexivity).
    split; [exact Hk0|]. apply Hzero; [lia|exact Hk0].
  - intros H10. assert (Hk1 : k = 1) by (rewrite Hk, H10; reflexivity).
    destruct Htrim as (lo & mid & hi & Hs & Hlo & Hhi & _ & Htm); [lia..|].
    rewrite Hk1 in Hlo, Hhi.
    destruct lo as [|a [|? ?]]; try discriminate.
    destruct hi as [|b [|? ?]]; try discriminate.
    exists a, mid, b. split; [exact Hs|]. split; [|exact Htm].
    assert (Hl : length (sorted values) = 10) by (rewrite sorted_length; exact H10).
    rewrite Hs in Hl. rewrite !length_app in Hl. simpl in Hl. lia.
Qed.

(** The hypothesis of C2 holds of a ten-sample window. *)
Lemma C2_trimmed_mean_witness :
  [9; 1; 8; 2; 7; 3; 6; 4; 5; 100]%Q ≠ [] ∧
  _trimmed_mean_safe [9; 1; 8; 2; 7; 3; 6; 4; 5; 100]%Q
  = Some (plain_mean [2; 3; 4; 5; 6; 7; 8; 9]%Q).
Proof.
  split; [discriminate|].
  destruct (C2_trimmed_mean [9; 1; 8; 2; 7; 3; 6; 4; 5; 100]%Q)
    as (_ & _ & _ & _ & H10 & _); [discriminate|].
  destruct H10 as (lo & mid & hi & Hs & _ & Htm); [reflexivity|].
  rewrite Htm. vm_compute in Hs.
  injection Hs as _ Hs.
  assert (Hm : mid = [2; 3; 4; 5; 6; 7; 8; 9]%Q).
  { do 8 (destruct mid as [|? mid]; [discriminate|injection Hs as <- Hs]).
    destruct mid; [reflexivity|]. destruct mid; discriminate. }
  by rewrite Hm.
Defined.

(** ** Gating and payload shaping *)

Lemma vals_length (d : deque) : length (vals d) = length d.
Proof. apply length_map. Qed.

Lemma slot_aggr_gated (slots : gmap nat deque) (i : nat) :
  length (slots !!! i) < MIN_REQUIRED K_slot → slot_aggr slots i = None.
Proof.
  intros Hlt. unfold slot_aggr. rewrite vals_length.
  destruct (Nat.leb_spec (MIN_REQUIRED K_slot) (length (slots !!! i))); [lia|done].
Qed.

Lemma slots_aggr_lookup (slots : gmap nat deque) (i : nat) :
  i < 4 → map (slot_aggr slots) (seq 0 4) !! i = Some (slot_aggr slots i).
Proof.
  intros Hi. do 4 (destruct i as [|i]; [reflexivity|]). lia.
Qed.

Lemma tick_update_payload inp st st' p :
  tick_update inp st = (st', Some p) → p = shape (aggregate (buf st')).
Proof.
  unfold tick_update. destruct (publish_due _ _ _); intros [= <- <-]. reflexivity.
Qed.

(** C1: in every publish cycle a metric whose window holds fewer samples
    than its minimum (slot temperature and humidity 2, CO2 2, particulate
    5, pressure 2) has the aggregate "unavailable" ([None]). *)
Theorem C1_min_sample_gating (b : Buf) :
  let a := aggregate b in
  (MIN_REQUIRED K_slot = 2 ∧ MIN_REQUIRED K_co2 = 2 ∧
   MIN_REQUIRED K_pm25 = 5 ∧ MIN_REQUIRED K_pres = 2) ∧
  (∀ i, i < 4 → length (buf_temp_slots b !!! i) < MIN_REQUIRED K_slot →
        agg_temp_slots a !! i = Some None) ∧
  (∀ i, i < 4 → length (buf_rh_slots b !!! i) < MIN_REQUIRED K_slot →
        agg_rh_slots a !! i = Some None) ∧
  (length (buf_co2 b) < MIN_REQUIRED K_co2 → co2_aggr a = None) ∧
  (length (buf_pm25 b) < MIN_REQUIRED K_pm25 → pm25_aggr a = None) ∧
  (length (buf_bme_pres b) < MIN_REQUIRED K_pres → pres_aggr a = None) ∧
  (∀ inp st st' p, tick_update inp st = (st', Some p) → buf st' = b →
                   p = shape a).
Proof.
  cbv zeta. split; [done|].
  split; [|split; [|split; [|split; [|split]]]].
  - intros i Hi Hlt. unfold aggregate. cbn [agg_temp_slots].
    rewrite slots_aggr_lookup by done. f_equal. by apply slot_aggr_gated.
  - intros i Hi Hlt. unfold aggregate. cbn [agg_rh_slots].
    rewrite slots_aggr_lookup by done. f_equal. by apply slot_aggr_gated.
  - intros Hlt. unfold aggregate. cbn [co2_aggr]. rewrite vals_length.
    destruct (Nat.leb_spec (MIN_REQUIRED K_co2) (length (buf_co2 b))); [lia|done].
  - intros Hlt. unfold aggregate. cbn [pm25_aggr]. rewrite vals_length.
    destruct (Nat.leb_spec (MIN_REQUIRED K_pm25) (length (buf_pm25 b))); [lia|done].
  - intros Hlt. unfold aggregate. cbn [pres_aggr]. rewrite vals_length.
    destruct (Nat.leb_spec (MIN_REQUIRED K_pres) (length (buf_bme_pres b)));
      [lia|done].
  - intros inp st st' p Hup <-. by apply (tick_update_payload inp st).
Qed.

Lemma f4_float_length lst : length (f4_float lst) = 4.
Proof.
  unfold f4_float. rewrite length_take, length_app. cbn [length]. lia.
Qed.

Lemma f4_float_lookup lst i x :
  i < 4 → lst !! i = Some x →
  f4_float lst !! i = Some (match x with Some v => v | None => 0%Q end).
Proof.
  intros Hi Hx. unfold f4_float.
  rewrite lookup_take_lt by done.
  rewrite lookup_app_l by (rewrite length_map; by eapply lookup_lt_Some).
  by rewrite list_lookup_fmap, Hx.
Qed.

Lemma f4_float_pad lst i :
  i < 4 → lst !! i = None → f4_float lst !! i = Some 0%Q.
Proof.
  intros Hi Hx. apply lookup_ge_None in Hx. unfold f4_float.
  rewrite lookup_take_lt by done.
  rewrite lookup_app_r by (by rewrite length_map).
  rewrite length_map.
  assert (Hlt : i - length lst < 4) by lia.
  revert Hlt. generalize (i - length lst) as j. intros j Hj.
  do 4 (destruct j as [|j]; [reflexivity|]). lia.
Qed.

(** C5: payload shaping yields 4-element arrays in which an unavailable
    aggregate is the filler 0 (0.0 in the float arrays, 0 in the int
    arrays) and an available one is carried over, as it is in the float
    arrays and rounded to the nearest integer in the int arrays, into its
    slot (the first one for CO2, dust and pressure); the temperature
    windows [{0:[20.0, 21.0], 1:[], 2:[19.5, 19.7], 3:[]}] with minimum 2
    are shaped to [[20.5, 0.0, 19.6, 0.0]]. *)
Theorem C5_payload_shaping :
  (∀ a : Aggregates,
     let p := shape a in
     (length (temperature p) = 4 ∧ length (humidity p) = 4 ∧
      length (payload_co2 p) = 4 ∧ length (payload_pm25 p) = 4 ∧
      length (pressure p) = 4) ∧
     (∀ i, i < 4 → agg_temp_slots a !! i = Some None →
           temperature p !! i = Some 0%Q) ∧
     (∀ i, i < 4 → agg_rh_slots a !! i = Some None →
           humidity p !! i = Some 0%Q) ∧
     (∀ i v, i < 4 → agg_temp_slots a !! i = Some (Some v) →
             temperature p !! i = Some v) ∧
     (∀ i v, i < 4 → agg_rh_slots a !! i = Some (Some v) →
             humidity p !! i = Some v) ∧
     (co2_aggr a = None → payload_co2 p = [0; 0; 0; 0]%Z) ∧
     (pm25_aggr a = None → payload_pm25 p = [0; 0; 0; 0]%Z) ∧
     (pres_aggr a = None → pressure p = [0; 0; 0; 0]%Q) ∧
     (∀ v, co2_aggr a = Some v →
           payload_co2 p = [round_half_even v; 0; 0; 0]%Z) ∧
     (∀ v, pm25_aggr a = Some v →
           payload_pm25 p = [round_half_even v; 0; 0; 0]%Z) ∧
     (∀ v, pres_aggr a = Some v → pressure p = [v; 0; 0; 0]%Q) ∧
     (∀ i, i < 4 → agg_temp_slots a !! i = None →
           temperature p !! i = Some 0%Q) ∧
     (∀ i, i < 4 → agg_rh_slots a !! i = None →
           humidity p !! i = Some 0%Q)) ∧
  (∀ (b : Buf) (t1 t2 t3 t4 : Q),
     buf_temp_slots b
     = <[0 := [(t1, 20.0); (t2, 21.0)]%Q]>
         (<[1 := []]> (<[2 := [(t3, 19.5); (t4, 19.7)]%Q]> (<[3 := []]> ∅))) →
     MIN_REQUIRED K_slot = 2 ∧
     Forall2 Qeq (temperature (shape (aggregate b))) [20.5; 0.0; 19.6; 0.0]%Q) ∧
  (let p := shape {| agg_temp_slots := [Some 20.5; None; Some 19.6; None]%Q;
                     agg_rh_slots := [None; Some 41.25; None; None]%Q;
                     co2_aggr := Some 410.5%Q;
                     pm25_aggr := Some 12.6%Q;
                     pres_aggr := Some 1013.25%Q |} in
   temperature p = [20.5; 0; 19.6; 0]%Q ∧
   humidity p = [0; 41.25; 0; 0]%Q ∧
   payload_co2 p = [410; 0; 0; 0]%Z ∧
   payload_pm25 p = [13; 0; 0; 0]%Z ∧
   pressure p = [1013.25; 0; 0; 0]%Q).
Proof.
  split; [|split].
  - intros a p. subst p. unfold shape. cbn [temperature humidity payload_co2
      payload_pm25 pressure].
    split; [by rewrite !f4_float_length|].
    split; [intros i Hi Hx; by rewrite (f4_float_lookup _ _ _ Hi Hx)|].
    split; [intros i Hi Hx; by rewrite (f4_float_lookup _ _ _ Hi Hx)|].
    split; [intros i v Hi Hx; by rewrite (f4_float_lookup _ _ _ Hi Hx)|].
    split; [intros i v Hi Hx; by rewrite (f4_float_lookup _ _ _ Hi Hx)|].
    split; [by intros ->|]. split; [by intros ->|]. split; [by intros ->|].
    split; [by intros v ->|]. split; [by intros v ->|]. split; [by intros v ->|].
    split; intros i Hi Hx; by apply f4_float_pad.
  - intros b t1 t2 t3 t4 Hb. split; [reflexivity|].
    unfold shape, aggregate. cbn [temperature agg_temp_slots]. rewrite Hb.
    vm_compute. repeat constructor.
  - vm_compute. repeat split; reflexivity.
Qed.

(** ** Pruning *)

Lemma popleft_while_split cutoff (d : deque) :
  ∃ old, d = old ++ popleft_while cutoff d ∧
         Forall (λ e, (fst e < cutoff)%Q) old.
Proof.
  induction d as [|[ts v] d (old & Hd & Hold)]; simpl.
  - by exists [].
  - destruct (Qltb ts cutoff) eqn:E.
    + exists ((ts, v) :: old). split; [simpl; by f_equal|].
      constructor; [by apply Qltb_lt|done].
    + by exists [].
Qed.

Lemma popleft_while_keeps cutoff (d : deque) e :
  e ∈ d → (cutoff <= fst e)%Q → e ∈ popleft_while cutoff d.
Proof.
  intros He Hts.
  destruct (popleft_while_split cutoff d) as (old & Hd & Hold).
  rewrite Hd in He. apply elem_of_app in He as [He|He]; [|done].
  rewrite Forall_forall in Hold. apply Hold in He.
  by apply Qlt_not_le in He.
Qed.

Lemma time_ordered_above (e : Q * Q) (d : deque) :
  time_ordered (e :: d) → Forall (λ x, (fst e <= fst x)%Q) d.
Proof.
  intros Hs. apply Sorted_StronglySorted in Hs.
  - by inversion Hs.
  - intros x y z Hxy Hyz. by apply Qle_trans with (fst y).
Qed.

Lemma popleft_while_ordered cutoff (d : deque) :
  time_ordered d → Forall (λ e, (cutoff <= fst e)%Q) (popleft_while cutoff d).
Proof.
  induction d as [|[ts v] d IH]; intros Hs; simpl; [constructor|].
  destruct (Qltb ts cutoff) eqn:E.
  - apply IH. by inversion Hs.
  - apply Qltb_ge in E. constructor; [done|].
    eapply Forall_impl; [by apply time_ordered_above|].
    intros x Hx. simpl in Hx. by apply Qle_trans with ts.
Qed.

Lemma get_seq_prune m now b :
  get_seq m (_prune_now now b)
  = popleft_while (now - BUF_WINDOW_S) <$> get_seq m b.
Proof.
  destruct m as [[] slot|[]]; simpl; try reflexivity; apply lookup_fmap.
Qed.

(** C4, as amended: after [prune(now)] every sequence keeps, in order, all
    of its entries inside the 10-second window, whatever the insertion
    order, and loses only entries older than [now - 10s] from its left end;
    a sequence in non-decreasing timestamp order, which is how the
    publisher fills it, is left with no entry older than [now - 10s]. *)
Theorem C4_prune_window (b : Buf) (now : Q) (m : metric) (d : deque) :
  get_seq m b = Some d →
  let cutoff := (now - BUF_WINDOW_S)%Q in
  ∃ d', get_seq m (_prune_now now b) = Some d' ∧
    (∀ e, e ∈ d → (cutoff <= fst e)%Q → e ∈ d') ∧
    (∃ old, d = old ++ d' ∧ Forall (λ e, (fst e < cutoff)%Q) old) ∧
    (time_ordered d → Forall (λ e, (cutoff <= fst e)%Q) d').
Proof.
  intros Hd cutoff. exists (popleft_while cutoff d).
  split; [by rewrite get_seq_prune, Hd|].
  split; [intros e; apply popleft_while_keeps|].
  split; [apply popleft_while_split|apply popleft_while_ordered].
Qed.

(** The hypothesis of C4 holds of a CO2 sequence with one old sample. *)
Lemma C4_prune_window_witness :
  let b := set_flat co2 (λ _, [(0, 500); (95, 400)]%Q) buf0 in
  let d := [(0, 500); (95, 400)]%Q in
  get_seq (FlatSeq co2) b = Some d ∧
  ∃ d', get_seq (FlatSeq co2) (_prune_now 100 b) = Some d' ∧
    (∀ e, e ∈ d → (100 - BUF_WINDOW_S <= fst e)%Q → e ∈ d') ∧
    (∃ old, d = old ++ d' ∧ Forall (λ e, (fst e < 100 - BUF_WINDOW_S)%Q) old) ∧
    (time_ordered d → Forall (λ e, (100 - BUF_WINDOW_S <= fst e)%Q) d').
Proof.
  split; [reflexivity|].
  apply (C4_prune_window
           (set_flat co2 (λ _, [(0, 500); (95, 400)]%Q) buf0) 100 (FlatSeq co2)).
  reflexivity.
Defined.

(** C4 as stated fails: a sequence that is not in timestamp order keeps an
    old entry that sits behind a fresh one. *)
Lemma C4_prune_counterexample :
  let b := set_flat co2 (λ _, [(100, 400); (0, 500)]%Q) buf0 in
  ∃ d' e, get_seq (FlatSeq co2) (_prune_now 100 b) = Some d' ∧
          e ∈ d' ∧ (fst e < 100 - BUF_WINDOW_S)%Q.
Proof.
  exists [(100, 400); (0, 500)]%Q, (0, 500)%Q.
  split; [reflexivity|]. split; [|reflexivity].
  apply elem_of_cons. right. apply elem_of_cons. by left.
Qed.

(** ** MQTT wrapper and the publish loop *)

Lemma MQTTClient_publish_trace {Msg} (self : MQTTClient) (res : outcome unit)
    (topic : string) (payload : Msg) (qos : Z) :
  MQTTClient_publish self res topic payload qos
  = ([Print (if bool_decide (topic ∈ map fst (publish_topics self))
             then LogPub topic qos else LogWarnNotInList topic);
      ClientPublish topic payload qos], res).
Proof.
  unfold MQTTClient_publish. by destruct (bool_decide _).
Qed.

(** C10: [MQTTClient.publish] hands every message to the underlying client,
    whether or not the topic is in [publish_topics]; membership only
    selects the line that is printed. *)
Theorem C10_publish_forwards_any_topic {Msg} (self : MQTTClient)
    (res : outcome unit) (topic : string) (payload : Msg) (qos : Z) :
  let run := MQTTClient_publish self res topic payload qos in
  client_publishes (fst run) = [(topic, payload, qos)] ∧
  snd run = res ∧
  printed (fst run)
  = [if bool_decide (topic ∈ map fst (publish_topics self))
     then LogPub topic qos else LogWarnNotInList topic] ∧
  (topic ∉ map fst (publish_topics self) →
   fst run = [Print (LogWarnNotInList topic); ClientPublish topic payload qos]).
Proof.
  cbv zeta. rewrite MQTTClient_publish_trace. cbn [fst snd].
  repeat split. intros Hnot. by rewrite bool_decide_eq_false_2.
Qed.

Section PublishLoop.
Variable TOPICS_PUB : list (string * Z).
Variable BROKER_HOST : string.
Variable BROKER_PORT : Z.
Variable period_s : Q.
Variable mqtt : MQTTClient.

Lemma publish_all_spec (msg : Payload) (res : nat → outcome unit)
    (topics : list (string * Z)) (i : nat) :
  ∃ tr, publish_all mqtt msg res i topics = (tr, Returns tt) ∧
    client_publishes tr = map (λ '(topic, qos), (topic, msg, qos)) topics ∧
    sleeps tr = 0 ∧
    (∀ j topic qos e, topics !! j = Some (topic, qos) →
                      res (i + j) = Raises e →
                      LogMqttPublishError topic e ∈ printed tr).
Proof.
  revert i. induction topics as [|[topic qos] rest IH]; intros i.
  - exists []. by repeat split.
  - destruct (IH (S i)) as (tr & Hrun & Hpub & Hsl & Herr).
    cbn [publish_all]. rewrite Hrun, MQTTClient_publish_trace.
    unfold client_publishes, sleeps, printed in *.
    destruct (res i) as [[]|e] eqn:Hres; cbn.
    + eexists. split; [reflexivity|]. cbn. rewrite Hpub.
      split; [done|]. split; [done|].
      intros [|j] topic' qos' e' Hj Hraise.
      * rewrite Nat.add_0_r in Hraise. congruence.
      * do 2 right. apply (Herr j topic' qos' e' Hj).
        by rewrite Nat.add_succ_comm.
    + eexists. split; [reflexivity|]. cbn. rewrite Hpub.
      split; [done|]. split; [done|].
      intros [|j] topic' qos' e' Hj Hraise.
      * rewrite Nat.add_0_r in Hraise. injection Hj as <- <-.
        assert (e' = e) as -> by congruence.
        do 2 right. left.
      * do 3 right. apply (Herr j topic' qos' e' Hj).
        by rewrite Nat.add_succ_comm.
Qed.

Lemma tick_emit_spec (inp : tick_input) (msg : option Payload) :
  ∃ tr, tick_emit TOPICS_PUB period_s mqtt inp msg = (tr, Returns tt) ∧
    client_publishes tr
    = match msg with
      | Some msg => map (λ '(topic, qos), (topic, msg, qos)) TOPICS_PUB
      | None => []
      end ∧
    sleeps tr = 1.
Proof.
  destruct msg as [msg|]; cbn [tick_emit].
  - destruct (publish_all_spec msg (publish_result inp) TOPICS_PUB 0)
      as (tr & Hrun & Hpub & Hsl & _).
    rewrite Hrun. cbn. eexists. split; [reflexivity|].
    unfold client_publishes, sleeps in *.
    rewrite !flat_map_app, length_app, Hpub, Hsl. cbn.
    by rewrite app_nil_r.
  - eexists. by repeat split.
Qed.

(** The loop never stops on its own: it runs every iteration it is given,
    sleeps once in each, and the calls that reach the client are those of
    the publish cycles, one per destination. *)
Lemma publisher_loop_spec (ticks : list tick_input) (st : pub_state) :
  ∃ tr st', publisher_loop TOPICS_PUB period_s mqtt ticks st = (tr, Returns st') ∧
    sleeps tr = length ticks ∧
    client_publishes tr
    = flat_map (λ '(_, msg), map (λ '(topic, qos), (topic, msg, qos)) TOPICS_PUB)
        (publications ticks st).
Proof.
  revert st. induction ticks as [|inp rest IH]; intros st.
  - exists [], st. by repeat split.
  - cbn [publisher_loop publications]. unfold publisher_tick.
    destruct (tick_update inp st) as [st1 msg].
    destruct (tick_emit_spec inp msg) as (tr1 & Hrun1 & Hpub1 & Hsl1).
    destruct (IH st1) as (tr2 & st2 & Hrun2 & Hsl2 & Hpub2).
    rewrite Hrun1. cbn. rewrite Hrun2. cbn.
    exists ((tr1 ++ []) ++ tr2), st2. split; [reflexivity|].
    rewrite app_nil_r. unfold client_publishes, sleeps in *.
    rewrite !flat_map_app, length_app, Hsl1, Hsl2, Hpub1, Hpub2.
    split; [done|]. by destruct msg.
Qed.
End PublishLoop.

(** C8: in a publish cycle every configured destination gets its publish
    call, in order, whichever of these calls fail; each failure is printed;
    the cycle ends normally with its sleep, and the loop goes on through
    all its iterations. *)
Theorem C8_destination_failure_isolated (TOPICS_PUB : list (string * Z))
    (period_s : Q) (mqtt : MQTTClient) :
  (∀ (inp : tick_input) (msg : Payload),
     ∃ tr, tick_emit TOPICS_PUB period_s mqtt inp (Some msg) = (tr, Returns tt) ∧
       client_publishes tr = map (λ '(topic, qos), (topic, msg, qos)) TOPICS_PUB ∧
       (∀ i topic qos e, TOPICS_PUB !! i = Some (topic, qos) →
                         publish_result inp i = Raises e →
                         LogMqttPublishError topic e ∈ printed tr) ∧
       sleeps tr = 1) ∧
  (∀ (ticks : list tick_input) (st : pub_state),
     ∃ tr st', publisher_loop TOPICS_PUB period_s mqtt ticks st = (tr, Returns st') ∧
       sleeps tr = length ticks).
Proof.
  split.
  - intros inp msg. cbn [tick_emit].
    destruct (publish_all_spec mqtt msg (publish_result inp) TOPICS_PUB 0)
      as (tr & Hrun & Hpub & Hsl & Herr).
    rewrite Hrun. cbn. eexists. split; [reflexivity|].
    unfold client_publishes, sleeps, printed in *.
    rewrite !flat_map_app, length_app, Hpub, Hsl. cbn.
    split; [by rewrite app_nil_r|]. split; [|done].
    intros i topic qos e Hi Hraise. rewrite app_nil_r.
    by apply (Herr i topic qos e).
  - intros ticks st.
    destruct (publisher_loop_spec TOPICS_PUB period_s mqtt ticks st)
      as (tr & st' & Hrun & Hsl & _).
    by exists tr, st'.
Qed.

(** ** Connecting to the broker *)

(** C7, as amended: when connecting to the broker fails, the publisher does
    not crash: it prints the failure and returns at once; it makes that one
    connect call only, never enters its cycle and never publishes. *)
Theorem C7_connect_failure_ends_publisher (TOPICS_PUB : list (string * Z))
    (BROKER_HOST : string) (BROKER_PORT : Z) (period_s : Q) (e : exn)
    (start : Q) (ticks : list tick_input) :
  let run := publisher TOPICS_PUB BROKER_HOST BROKER_PORT period_s
               (Raises e) start ticks in
  run = ([ClientConnect BROKER_HOST BROKER_PORT; Print (LogMqttConnectError e)],
         Returns tt) ∧
  client_connects (fst run) = 1 ∧
  sleeps (fst run) = 0 ∧
  client_publishes (fst run) = [].
Proof. by repeat split. Qed.

(** When the connect call succeeds the loop runs all its iterations. *)
Lemma publisher_connected_runs (TOPICS_PUB : list (string * Z))
    (BROKER_HOST : string) (BROKER_PORT : Z) (period_s : Q)
    (start : Q) (ticks : list tick_input) :
  ∃ tr, publisher TOPICS_PUB BROKER_HOST BROKER_PORT period_s
          (Returns tt) start ticks = (tr, Returns tt) ∧
    sleeps tr = length ticks ∧
    client_publishes tr
    = flat_map (λ '(_, msg), map (λ '(topic, qos), (topic, msg, qos)) TOPICS_PUB)
        (publications ticks (pub_state0 start)).
Proof.
  unfold publisher.
  destruct (publisher_loop_spec TOPICS_PUB period_s
              (MQTTClient_init BROKER_HOST BROKER_PORT TOPICS_PUB) ticks
              (pub_state0 start)) as (tr & st' & Hrun & Hsl & Hpub).
  unfold pub_state0 in Hrun. cbn. rewrite Hrun. cbn.
  eexists. split; [reflexivity|].
  unfold sleeps, client_publishes in *. cbn.
  rewrite !flat_map_app, length_app, Hsl, Hpub. cbn.
  split; [lia|]. by rewrite app_nil_r.
Qed.

(** C7 as stated fails: with a refused connection there is one connect
    call, no second one, and none of the two iterations at hand is run. *)
Lemma C7_connect_retry_counterexample :
  let tick := {| now := 1; snap := latest0; publish_result := λ _, Returns tt |} in
  let run := publisher [("hvac/sensor", 0%Z)] "localhost" 1883 1
               (Raises (Exception "refused")) 0 [tick; tick] in
  ¬ (2 ≤ client_connects (fst run)) ∧ sleeps (fst run) = 0.
Proof.
  cbv zeta. split; [|reflexivity].
  change (client_connects _) with 1. lia.
Qed.

(** ** Sampling workers *)

Lemma shtc3_steps_other_fields chs read l :
  let l' := fst (shtc3_steps chs read l) in
  sht41 l' = sht41 l ∧ bme280 l' = bme280 l ∧ gp2y l' = gp2y l ∧
  mhz19b l' = mhz19b l.
Proof.
  revert l. induction chs as [|ch rest IH]; intros l; [done|].
  cbn [shtc3_steps].
  destruct (shtc3_step ch (read ch) l) as [l1 p1] eqn:E1.
  specialize (IH l1). destruct (shtc3_steps rest read l1) as [l2 p2].
  cbn [fst] in *. unfold shtc3_step in E1.
  destruct (read ch) as [[t h]|e]; injection E1 as <- _; exact IH.
Qed.





(** ** Warm-up gating and rate limit *)

Lemma Qle_bool_window a b :
  Qle_bool BUF_WINDOW_S (a - b) = true → (b + BUF_WINDOW_S <= a)%Q.
Proof. intros H. apply Qle_bool_iff in H. lra. Qed.

(** What one iteration does to the warm-up bookkeeping. *)
Lemma tick_update_cases inp st :
  let st' := fst (tick_update inp st) in
  (match first_window_start st with
   | Some f => first_window_start st' = Some f
   | None => first_window_start st' = None ∨
             first_window_start st' = Some (now inp)
   end) ∧
  (match snd (tick_update inp st) with
   | Some _ =>
       t0 st' = now inp ∧ (t0 st + BUF_WINDOW_S <= now inp)%Q ∧
       ∃ f, first_window_start st' = Some f ∧ (f + BUF_WINDOW_S <= now inp)%Q
   | None => t0 st' = t0 st
   end).
Proof.
  unfold tick_update.
  set (b := _prune_now (now inp) (push_snapshot (now inp) (snap inp) (buf st))).
  set (fws := match first_window_start st with
              | None => if have_slot b || have_co2 b || have_pm b || have_pres b
                        then Some (now inp) else None
              | Some f => Some f
              end).
  assert (Hfws : match first_window_start st with
                 | Some f => fws = Some f
                 | None => fws = None ∨ fws = Some (now inp)
                 end).
  { subst fws. destruct (first_window_start st); [done|].
    destruct (_ || _); auto. }
  destruct (publish_due (now inp) fws (t0 st)) eqn:Hdue; cbn [fst snd
    first_window_start t0]; (split; [exact Hfws|]); [|done].
  split; [done|]. unfold publish_due in Hdue.
  destruct fws as [f|]; [|done]. apply andb_true_iff in Hdue as [H0 Hf].
  split; [by apply Qle_bool_window|].
  exists f. split; [done|]. by apply Qle_bool_window.
Qed.

(** Once the window start is set, every later publish is a full window
    after it. *)
Lemma publications_after_start ticks st f :
  first_window_start st = Some f →
  Forall (λ p : Q * Payload, (f + BUF_WINDOW_S <= fst p)%Q) (publications ticks st).
Proof.
  revert st. induction ticks as [|inp rest IH]; intros st Hf; [constructor|].
  cbn [publications]. pose proof (tick_update_cases inp st) as [Hfws Hpub].
  rewrite Hf in Hfws. destruct (tick_update inp st) as [st' [p|]]; cbn in *.
  - constructor; [|by apply IH].
    destruct Hpub as (_ & _ & f' & Hf' & Hle). cbn. congruence.
  - by apply IH.
Qed.

(** Before the window start is set, a publish comes a full window after any
    lower bound of the clock readings still to come. *)
Lemma publications_before_start ticks st lb :
  first_window_start st = None →
  Forall (λ inp, (lb <= now inp)%Q) ticks →
  Forall (λ p : Q * Payload, (lb + BUF_WINDOW_S <= fst p)%Q) (publications ticks st).
Proof.
  revert st. induction ticks as [|inp rest IH]; intros st Hf Hlb; [constructor|].
  apply Forall_cons in Hlb as [Hinp Hrest].
  cbn [publications]. pose proof (tick_update_cases inp st) as [Hfws Hpub].
  rewrite Hf in Hfws.
  assert (Hlater : Forall (λ p : Q * Payload, (lb + BUF_WINDOW_S <= fst p)%Q)
                     (publications rest (fst (tick_update inp st)))).
  { destruct Hfws as [Hnone|Hsome]; [by apply IH|].
    eapply Forall_impl; [by apply publications_after_start|].
    intros p Hp. cbn in Hp. lra. }
  destruct (tick_update inp st) as [st' [p|]]; cbn in *; [|done].
  constructor; [|done]. cbn.
  destruct Hpub as (_ & _ & f' & Hf' & Hle).
  destruct Hfws as [Hnone|Hsome]; [congruence|].
  assert (f' = now inp) as -> by congruence.
  unfold BUF_WINDOW_S in Hle. lra.
Qed.

Lemma push_snapshot_no_sample ts inp b :
  gives_sample inp = false → push_snapshot ts (snap inp) b = b.
Proof.
  unfold gives_sample, push_snapshot, push_shtc3.
  cbn [existsb ch_to_slot fold_left]. unfold push_channel.
  destruct (bme280 (snap inp)), (mhz19b (snap inp)), (gp2y (snap inp));
    rewrite ?orb_true_r; try discriminate.
  destruct (shtc3 (snap inp) !! 2) as [[?|]|]; try discriminate;
  destruct (shtc3 (snap inp) !! 3) as [[?|]|]; try discriminate;
  destruct (shtc3 (snap inp) !! 4) as [[?|]|]; try discriminate;
  destruct (shtc3 (snap inp) !! 5) as [[?|]|]; try discriminate;
  reflexivity.
Qed.

Lemma prune_buf0 now : _prune_now now buf0 = buf0.
Proof.
  unfold _prune_now, buf0. cbn. f_equal;
    unfold empty_slots; by rewrite !fmap_insert, fmap_empty.
Qed.

(** Without a sample the publisher stays in its initial state. *)
Lemma tick_update_idle inp start :
  gives_sample inp = false →
  tick_update inp (pub_state0 start) = (pub_state0 start, None).
Proof.
  intros Hno. unfold tick_update, pub_state0. cbn [buf first_window_start t0].
  rewrite (push_snapshot_no_sample _ _ _ Hno), prune_buf0.
  reflexivity.
Qed.

Lemma publications_warmup ticks start :
  clock_monotone ticks →
  Forall (λ p : Q * Payload,
            ∃ f0, first_sample_time ticks = Some f0 ∧
                  (f0 + BUF_WINDOW_S <= fst p)%Q)
    (publications ticks (pub_state0 start)).
Proof.
  induction ticks as [|inp rest IH]; intros Hmono; [constructor|].
  apply StronglySorted_inv in Hmono as [Hrest Hinp].
  cbn [publications first_sample_time].
  destruct (gives_sample inp) eqn:Hs.
  - pose proof (publications_before_start (inp :: rest) (pub_state0 start)
                  (now inp) eq_refl) as H.
    cbn [publications] in H.
    eapply Forall_impl; [apply H|].
    + constructor; [apply Qle_refl|exact Hinp].
    + intros p Hp. by exists (now inp).
  - rewrite (tick_update_idle _ _ Hs). by apply IH.
Qed.

(** Publish times are spaced by a full window, starting from [t0]. *)
Lemma publications_spaced ticks st :
  Sorted (λ x y : Q, (x + BUF_WINDOW_S <= y)%Q)
    (t0 st :: map fst (publications ticks st)).
Proof.
  revert st. induction ticks as [|inp rest IH]; intros st.
  - repeat constructor.
  - cbn [publications]. pose proof (tick_update_cases inp st) as [_ Hpub].
    specialize (IH (fst (tick_update inp st))).
    destruct (tick_update inp st) as [st' [p|]]; cbn in *.
    + destruct Hpub as (Ht0 & Hle & _). rewrite Ht0 in IH.
      constructor; [done|]. by constructor.
    + by rewrite Hpub in IH.
Qed.

Lemma spaced_lookup (l : list Q) i j p q :
  StronglySorted (λ x y : Q, (x + BUF_WINDOW_S <= y)%Q) l →
  i < j → l !! i = Some p → l !! j = Some q → (p + BUF_WINDOW_S <= q)%Q.
Proof.
  intros Hs. revert i j. induction Hs as [|x l Hs IH Hx]; intros i j Hij Hi Hj.
  - by rewrite lookup_nil in Hi.
  - destruct j as [|j]; [lia|]. destruct i as [|i].
    + injection Hi as <-. cbn in Hj. rewrite Forall_forall in Hx.
      apply Hx. by eapply list_elem_of_lookup_2.
    + cbn in Hi, Hj. apply (IH i j); [lia|done..].
Qed.

(** C6: with a clock that never runs backwards, every publish of the
    publisher loop comes at least 10 seconds after the first sample entered
    the window buffer, and any two publishes are at least 10 seconds
    apart. *)
Theorem C6_warmup_and_rate_limit (ticks : list tick_input) (start : Q) :
  clock_monotone ticks →
  let pubs := map fst (publications ticks (pub_state0 start)) in
  (∀ p, p ∈ pubs →
        ∃ f0, first_sample_time ticks = Some f0 ∧ (f0 + BUF_WINDOW_S <= p)%Q) ∧
  (∀ i j p q, i < j → pubs !! i = Some p → pubs !! j = Some q →
              (p + BUF_WINDOW_S <= q)%Q).
Proof.
  intros Hmono pubs. split.
  - intros p Hp. subst pubs. apply list_elem_of_fmap in Hp as ([p' pl] & -> & Hin).
    pose proof (publications_warmup ticks start Hmono) as H.
    rewrite Forall_forall in H. by apply (H (p', pl)).
  - intros i j p q Hij Hi Hj.
    pose proof (publications_spaced ticks (pub_state0 start)) as Hs.
    apply Sorted_StronglySorted in Hs.
    + apply StronglySorted_inv in Hs as [Hs _].
      by apply (spaced_lookup pubs i j).
    + intros x y z Hxy Hyz. unfold BUF_WINDOW_S in *. lra.
Qed.

(** ** The first sample and [first_window_start] *)

Lemma popleft_while_last cutoff (d : deque) ts v :
  (cutoff <= ts)%Q → popleft_while cutoff (d ++ [(ts, v)]) ≠ [].
Proof.
  intros Hle. induction d as [|[t w] d IH]; cbn.
  - by rewrite (proj2 (Qltb_ge _ _) Hle).
  - by destruct (Qltb t cutoff).
Qed.

Lemma window_cutoff_le now : (now - BUF_WINDOW_S <= now)%Q.
Proof. unfold BUF_WINDOW_S. lra. Qed.

Lemma have_slot_intro b slot (d : deque) :
  buf_temp_slots b !! slot = Some d → d ≠ [] → have_slot b = true.
Proof.
  intros Hd Hne. unfold have_slot. apply existsb_exists. exists d. split.
  - apply in_map_iff. exists (slot, d). split; [done|].
    apply list_elem_of_In. by apply elem_of_map_to_list.
  - by destruct d.
Qed.

Lemma push_channel_temp ts s3 b ch slot :
  buf_temp_slots (push_channel ts s3 b (ch, slot))
  = match s3 !! ch with
    | Some (Some e) => alter (λ d, d ++ [(ts, temp_c e)]) slot (buf_temp_slots b)
    | _ => buf_temp_slots b
    end.
Proof. unfold push_channel. by destruct (s3 !! ch) as [[e|]|]. Qed.

Lemma push_channels_fresh ts s3 ch slot e (cs : list (nat * nat)) (b : Buf) :
  s3 !! ch = Some (Some e) →
  ((ch, slot) ∈ cs ∧ is_Some (buf_temp_slots b !! slot)) ∨
  (∃ d0 v, buf_temp_slots b !! slot = Some (d0 ++ [(ts, v)])) →
  ∃ d0 v, buf_temp_slots (fold_left (push_channel ts s3) cs b) !! slot
          = Some (d0 ++ [(ts, v)]).
Proof.
  intros He. revert b. induction cs as [|[c s] cs IH]; intros b Hb.
  - destruct Hb as [[Hin _]|Hb]; [by apply elem_of_nil in Hin|done].
  - cbn [fold_left]. apply IH. rewrite push_channel_temp.
    destruct Hb as [[Hin [d Hd]]|(d0 & v & Hd)].
    + apply elem_of_cons in Hin as [[= <- <-]|Hin].
      * right. rewrite He. exists d, (temp_c e).
        by rewrite lookup_alter_eq, Hd.
      * left. split; [done|].
        destruct (s3 !! c) as [[e'|]|]; [|by rewrite Hd..].
        rewrite lookup_alter. case_decide; [subst|]; by rewrite Hd.
    + right. destruct (s3 !! c) as [[e'|]|]; [|by eauto..].
      rewrite lookup_alter. case_decide; [subst|by eauto].
      rewrite Hd. cbn. by exists (d0 ++ [(ts, v)]), (temp_c e').
Qed.

Lemma push_shtc3_fold ts s3 b :
  push_shtc3 ts s3 b = fold_left (push_channel ts s3) ch_to_slot b.
Proof. reflexivity. Qed.

Lemma push_snapshot_temp_slots ts snap b :
  buf_temp_slots (push_snapshot ts snap b)
  = buf_temp_slots (push_shtc3 ts (shtc3 snap) b).
Proof.
  unfold push_snapshot. by destruct (bme280 snap), (mhz19b snap), (gp2y snap).
Qed.

(** A snapshot with a sample makes the publisher see a non-empty sequence
    in the same iteration, if the slots 0..3 exist. *)
Lemma sample_is_seen inp b :
  (∀ slot, slot < 4 → is_Some (buf_temp_slots b !! slot)) →
  gives_sample inp = true →
  let b' := _prune_now (now inp) (push_snapshot (now inp) (snap inp) b) in
  have_slot b' || have_co2 b' || have_pm b' || have_pres b' = true.
Proof.
  intros Hwf Hs b'. unfold gives_sample in Hs.
  pose proof (window_cutoff_le (now inp)) as Hcut.
  apply orb_true_iff in Hs as [Hs|Hgp].
  apply orb_true_iff in Hs as [Hs|Hmh].
  apply orb_true_iff in Hs as [Hs|Hbme].
  - apply existsb_exists in Hs as ([ch slot] & Hin & Hch).
    destruct (shtc3 (snap inp) !! ch) as [[e|]|] eqn:He; try discriminate.
    assert (Hslot : slot < 4).
    { cbn in Hin. destruct Hin as [[= <- <-]|[[= <- <-]|[[= <- <-]|[[= <- <-]|[]]]]]; lia. }
    destruct (push_channels_fresh (now inp) (shtc3 (snap inp)) ch slot e
                ch_to_slot b He) as (d0 & v & Hd).
    { left. split; [by apply list_elem_of_In|by apply Hwf]. }
    assert (Hlk : buf_temp_slots b' !! slot
                  = Some (popleft_while (now inp - BUF_WINDOW_S)
                            (d0 ++ [(now inp, v)]))).
    { subst b'. cbn [_prune_now buf_temp_slots].
      by rewrite lookup_fmap, push_snapshot_temp_slots, push_shtc3_fold, Hd. }
    rewrite (have_slot_intro b' slot _ Hlk); [done|].
    by apply popleft_while_last.
  - destruct (bme280 (snap inp)) as [r|] eqn:Hr; [|done].
    assert (Hp : have_pres b' = true); [|by rewrite Hp, !orb_true_r].
    unfold have_pres. subst b'. unfold push_snapshot. rewrite Hr.
    destruct (mhz19b (snap inp)), (gp2y (snap inp)); cbn;
      match goal with
      | |- context [popleft_while ?c (?d ++ [(?t, ?v)])] =>
          pose proof (popleft_while_last c d t v Hcut);
          by destruct (popleft_while c (d ++ [(t, v)]))
      end.
  - destruct (mhz19b (snap inp)) as [r|] eqn:Hr; [|done].
    assert (Hp : have_co2 b' = true); [|by rewrite Hp, !orb_true_r].
    unfold have_co2. subst b'. unfold push_snapshot. rewrite Hr.
    destruct (bme280 (snap inp)), (gp2y (snap inp)); cbn;
      match goal with
      | |- context [popleft_while ?c (?d ++ [(?t, ?v)])] =>
          pose proof (popleft_while_last c d t v Hcut);
          by destruct (popleft_while c (d ++ [(t, v)]))
      end.
  - destruct (gp2y (snap inp)) as [r|] eqn:Hr; [|done].
    assert (Hp : have_pm b' = true); [|by rewrite Hp, !orb_true_r].
    unfold have_pm. subst b'. unfold push_snapshot. rewrite Hr.
    destruct (bme280 (snap inp)), (mhz19b (snap inp)); cbn;
      match goal with
      | |- context [popleft_while ?c (?d ++ [(?t, ?v)])] =>
          pose proof (popleft_while_last c d t v Hcut);
          by destruct (popleft_while c (d ++ [(t, v)]))
      end.
Qed.

Lemma empty_slots_present slot : slot < 4 → empty_slots !! slot = Some [].
Proof.
  intros Hs. do 4 (destruct slot as [|slot]; [reflexivity|]). lia.
Qed.

Lemma run_updates_keeps_start ticks st f :
  first_window_start st = Some f →
  first_window_start (run_updates ticks st) = Some f.
Proof.
  revert st. induction ticks as [|inp rest IH]; intros st Hf; [done|].
  cbn [run_updates fold_left]. apply IH.
  pose proof (tick_update_cases inp st) as [Hfws _]. by rewrite Hf in Hfws.
Qed.

(** [first_window_start] holds the clock reading of the first iteration
    whose snapshot carried a sample. *)
Lemma first_window_start_is_first_sample ticks start :
  first_window_start (run_updates ticks (pub_state0 start))
  = first_sample_time ticks.
Proof.
  induction ticks as [|inp rest IH]; [done|].
  cbn [run_updates fold_left first_sample_time].
  destruct (gives_sample inp) eqn:Hs.
  - apply run_updates_keeps_start.
    pose proof (sample_is_seen inp buf0
                  (λ slot H, mk_is_Some _ _ (empty_slots_present slot H)) Hs)
      as Hseen.
    unfold tick_update, pub_state0. cbn [buf first_window_start t0].
    cbv zeta in Hseen. rewrite Hseen.
    by destruct (publish_due _ _ _).
  - rewrite (tick_update_idle _ _ Hs). exact IH.
Qed.

(** The slots 0..3 of both slot dictionaries are there in every state the
    publisher reaches, so [buf[key][slot]] never misses its key. *)
Lemma push_channel_keeps_slot ts s3 b cs key slot :
  is_Some (get_slots key b !! slot) →
  is_Some (get_slots key (push_channel ts s3 b cs) !! slot).
Proof.
  intros Hs. destruct cs as [c s]. unfold push_channel.
  destruct (s3 !! c) as [[e|]|]; [|done..].
  destruct key; cbn in *; rewrite lookup_alter; case_decide; subst; try done;
    by apply fmap_is_Some.
Qed.

Lemma tick_update_keeps_slot inp st key slot :
  is_Some (get_slots key (buf st) !! slot) →
  is_Some (get_slots key (buf (fst (tick_update inp st))) !! slot).
Proof.
  intros Hs.
  assert (Hpush : is_Some (get_slots key
                    (push_snapshot (now inp) (snap inp) (buf st)) !! slot)).
  { assert (H3 : is_Some (get_slots key
                    (push_shtc3 (now inp) (shtc3 (snap inp)) (buf st)) !! slot)).
    { unfold push_shtc3. generalize ch_to_slot as cs. revert Hs.
      generalize (buf st) as b. intros b Hs cs. revert b Hs.
      induction cs as [|c cs IH]; intros b Hs; [done|].
      cbn [fold_left]. by apply IH, push_channel_keeps_slot. }
    unfold push_snapshot.
    by destruct (bme280 (snap inp)), (mhz19b (snap inp)), (gp2y (snap inp)), key. }
  unfold tick_update. destruct (publish_due _ _ _); cbn [fst buf];
    destruct key; cbn [get_slots _prune_now buf_temp_slots buf_rh_slots] in *;
    rewrite lookup_fmap; by apply fmap_is_Some.
Qed.

Lemma publisher_slots_present ticks start key slot :
  slot < 4 →
  is_Some (get_slots key (buf (run_updates ticks (pub_state0 start))) !! slot).
Proof.
  intros Hs.
  assert (H0 : is_Some (get_slots key (buf (pub_state0 start)) !! slot)).
  { destruct key; cbn; by rewrite empty_slots_present. }
  revert H0. generalize (pub_state0 start) as st.
  induction ticks as [|inp rest IH]; intros st H0; [done|].
  cbn [run_updates fold_left]. by apply IH, tick_update_keeps_slot.
Qed.

(** A run with a CO2 reading in every snapshot, one iteration every 5
    seconds: the publishes come at 10 and at 20 seconds. *)
Example publications_every_window :
  let snap := set_mhz19b (Some {| mhz_co2 := 400; mhz_temp := 21 |}) latest0 in
  let tick t := {| now := t; snap := snap; publish_result := λ _, Returns tt |} in
  let ticks := [tick 0; tick 5; tick 10; tick 15; tick 20]%Q in
  map (λ p, (fst p, payload_co2 (snd p))) (publications ticks (pub_state0 0))
  = [(10, [400; 0; 0; 0]%Z); (20, [400; 0; 0; 0]%Z)]%Q
  ∧ first_sample_time ticks = Some 0%Q.
Proof. by vm_compute. Qed.

(** The hypothesis of C6 holds of that run. *)
Lemma C6_warmup_and_rate_limit_witness :
  let snap := set_mhz19b (Some {| mhz_co2 := 400; mhz_temp := 21 |}) latest0 in
  let tick t := {| now := t; snap := snap; publish_result := λ _, Returns tt |} in
  let ticks := [tick 0; tick 5; tick 10; tick 15; tick 20]%Q in
  let pubs := map fst (publications ticks (pub_state0 0)) in
  clock_monotone ticks ∧
  (∀ p, p ∈ pubs →
        ∃ f0, first_sample_time ticks = Some f0 ∧ (f0 + BUF_WINDOW_S <= p)%Q) ∧
  (∀ i j p q, i < j → pubs !! i = Some p → pubs !! j = Some q →
              (p + BUF_WINDOW_S <= q)%Q).
Proof.
  intros snap tick ticks pubs.
  assert (Hmono : clock_monotone ticks).
  { unfold clock_monotone, ticks.
    repeat (apply SSorted_cons || apply SSorted_nil || apply List.Forall_cons
            || apply List.Forall_nil); discriminate. }
  split; [exact Hmono|].
  exact (C6_warmup_and_rate_limit ticks 0 Hmono).
Defined.

(** ** The publisher keeps its sequences in timestamp order *)

Lemma ordered_upto_weaken ub ub' (d : deque) :
  (ub <= ub')%Q → ordered_upto ub d → ordered_upto ub' d.
Proof.
  intros Hle [Hs Hb]. split; [done|].
  eapply Forall_impl; [exact Hb|]. intros e He. cbn in He. lra.
Qed.

Lemma ordered_upto_snoc ts v (d : deque) :
  ordered_upto ts d → ordered_upto ts (d ++ [(ts, v)]).
Proof.
  intros [Hs Hb]. split.
  - unfold time_ordered in *. induction d as [|a d IH]; cbn.
    + repeat constructor.
    + apply Forall_cons in Hb as [Ha Hb].
      apply Sorted_inv in Hs as [Hs Hhd]. constructor; [by apply IH|].
      destruct d as [|a' d]; cbn; constructor; [done|]. by inversion Hhd.
  - apply Forall_app. split; [done|]. repeat constructor. cbn. lra.
Qed.

Lemma time_ordered_suffix (old d : deque) :
  time_ordered (old ++ d) → time_ordered d.
Proof.
  induction old as [|a old IH]; cbn; [done|].
  intros Hs. apply IH. by apply Sorted_inv in Hs as [Hs _].
Qed.

Lemma ordered_upto_popleft cutoff ub (d : deque) :
  ordered_upto ub d → ordered_upto ub (popleft_while cutoff d).
Proof.
  intros [Hs Hb].
  destruct (popleft_while_split cutoff d) as (old & Hd & _).
  rewrite Hd in Hs, Hb. split; [by eapply time_ordered_suffix|].
  by apply Forall_app in Hb as [_ Hb].
Qed.

Lemma buf_ordered_buf0 ub : buf_ordered ub buf0.
Proof.
  assert (Hnil : ordered_upto ub []) by (split; constructor).
  intros [key slot|key] d; cbn.
  - assert (Hs : empty_slots !! slot = Some d → d = []).
    { do 4 (destruct slot as [|slot]; [by intros [= <-]|]).
      unfold empty_slots. rewrite !lookup_insert_ne by lia.
      by rewrite lookup_empty. }
    destruct key; cbn; intros ->%Hs; exact Hnil.
  - destruct key; cbn; intros [= <-]; exact Hnil.
Qed.

Lemma buf_ordered_push ts key val b :
  buf_ordered ts b → buf_ordered ts (_push ts key val b).
Proof.
  intros Hb. destruct val as [v|]; [|done]. intros m d.
  destruct m as [k s|k].
  - intros Hd. apply (Hb (SlotSeq k s)). by destruct k, key.
  - pose proof (Hb (FlatSeq k) _ eq_refl) as Hk.
    destruct k, key; cbn in *; intros [= <-];
      first [exact Hk | by apply ordered_upto_snoc].
Qed.

Lemma buf_ordered_push_slot ts key val slot b :
  buf_ordered ts b → buf_ordered ts (_push_slot ts key val slot b).
Proof.
  intros Hb. destruct val as [v|]; [|done]. intros m d.
  destruct m as [k s|k].
  - pose proof (Hb (SlotSeq k s)) as Hk.
    destruct k, key; cbn in *; try exact (Hk d);
      rewrite lookup_alter; case_decide; subst; try exact (Hk d);
      destruct (_ !! s) as [d0|] eqn:E; cbn; intros [= <-];
      by apply ordered_upto_snoc, Hk.
  - intros Hd. apply (Hb (FlatSeq k)). by destruct k, key.
Qed.

Lemma buf_ordered_push_snapshot ts snap b :
  buf_ordered ts b → buf_ordered ts (push_snapshot ts snap b).
Proof.
  intros Hb.
  assert (H3 : buf_ordered ts (push_shtc3 ts (shtc3 snap) b)).
  { unfold push_shtc3. generalize ch_to_slot as cs. intros cs. revert b Hb.
    induction cs as [|[c s] cs IH]; intros b Hb; [done|].
    cbn [fold_left]. apply IH. unfold push_channel.
    destruct (shtc3 snap !! c) as [[e|]|]; [|done..].
    by do 2 apply buf_ordered_push_slot. }
  unfold push_snapshot.
  destruct (bme280 snap), (mhz19b snap), (gp2y snap);
    repeat apply buf_ordered_push; exact H3.
Qed.

Lemma buf_ordered_prune now ub b :
  buf_ordered ub b → buf_ordered ub (_prune_now now b).
Proof.
  intros Hb m d. rewrite get_seq_prune.
  destruct (get_seq m b) as [d0|] eqn:E; cbn; intros [= <-].
  apply ordered_upto_popleft. by apply (Hb m).
Qed.

Lemma buf_ordered_weaken ub ub' b :
  (ub <= ub')%Q → buf_ordered ub b → buf_ordered ub' b.
Proof.
  intros Hle Hb m d Hd. eapply ordered_upto_weaken; [exact Hle|]. by apply (Hb m).
Qed.

Lemma tick_update_buf inp st :
  buf (fst (tick_update inp st))
  = _prune_now (now inp) (push_snapshot (now inp) (snap inp) (buf st)).
Proof. unfold tick_update. by destruct (publish_due _ _ _). Qed.

Lemma list_exist_upper_bound (ticks : list tick_input) :
  ∃ hi, Forall (λ inp, (now inp <= hi)%Q) ticks.
Proof.
  induction ticks as [|inp rest [hi Hhi]]; [by exists 0%Q|].
  destruct (Qlt_le_dec hi (now inp)) as [Hlt|Hle].
  - exists (now inp). constructor; [apply Qle_refl|].
    eapply Forall_impl; [exact Hhi|]. intros x Hx. cbn in Hx. lra.
  - exists hi. by constructor.
Qed.

Lemma run_updates_ordered ticks start hi :
  clock_monotone ticks → Forall (λ inp, (now inp <= hi)%Q) ticks →
  buf_ordered hi (buf (run_updates ticks (pub_state0 start))).
Proof.
  revert hi. induction ticks as [|inp ticks IH] using rev_ind; intros hi Hmono Hhi.
  - apply buf_ordered_buf0.
  - apply StronglySorted_app in Hmono as (Hlast & Hmono & _).
    apply Forall_app in Hhi as [_ Hinp]. rewrite Forall_singleton in Hinp.
    unfold run_updates. rewrite fold_left_app. cbn [fold_left].
    fold (run_updates ticks (pub_state0 start)).
    rewrite tick_update_buf.
    apply (buf_ordered_weaken (now inp)); [done|].
    apply buf_ordered_prune, buf_ordered_push_snapshot, IH; [done|].
    apply Forall_forall. intros x Hx. apply Hlast; [done|]. by left.
Qed.

(** With a clock that never runs backwards every sequence of the window
    buffer is in timestamp order at every iteration. *)
Lemma publisher_buffer_time_ordered ticks start m d :
  clock_monotone ticks →
  get_seq m (buf (run_updates ticks (pub_state0 start))) = Some d →
  time_ordered d.
Proof.
  intros Hmono Hd.
  destruct (list_exist_upper_bound ticks) as [hi Hhi].
  by apply (run_updates_ordered ticks start hi Hmono Hhi m d).
Qed.

(** After every iteration of the publisher, no entry of the window buffer
    is older than the window. *)
Lemma publisher_buffer_within_window ticks inp start m d :
  clock_monotone (ticks ++ [inp]) →
  get_seq m (buf (run_updates (ticks ++ [inp]) (pub_state0 start))) = Some d →
  Forall (λ e, (now inp - BUF_WINDOW_S <= fst e)%Q) d.
Proof.
  intros Hmono. unfold run_updates. rewrite fold_left_app. cbn [fold_left].
  fold (run_updates ticks (pub_state0 start)).
  rewrite tick_update_buf, get_seq_prune.
  set (st := run_updates ticks (pub_state0 start)).
  destruct (get_seq m (push_snapshot (now inp) (snap inp) (buf st)))
    as [d0|] eqn:E; cbn; intros [= <-].
  apply popleft_while_ordered.
  apply StronglySorted_app in Hmono as (Hlast & Hmono & _).
  assert (Hb : buf_ordered (now inp) (buf st)).
  { apply run_updates_ordered; [done|].
    apply Forall_forall. intros x Hx. apply Hlast; [done|]. by left. }
  by apply (buf_ordered_push_snapshot (now inp) (snap inp) _ Hb m d0).
Qed.

(* ================================================================== *)
(** * Further properties of the code *)

(** ** The CRC of the Sensirion sensors *)

Lemma crc8_round_byte c : is_byte (crc8_round c).
Proof.
  unfold is_byte, crc8_round. change 0xFF%Z with (Z.ones 8).
  rewrite Z.land_ones by lia. apply Z.mod_pos_bound. lia.
Qed.

Lemma crc8_byte_is_byte c b : is_byte (crc8_byte c b).
Proof. unfold crc8_byte. cbn [Nat.iter]. apply crc8_round_byte. Qed.

(** X1: the CRC of any list of ints, in or out of the byte range, is a
    byte; it is 0xFF on the empty list. *)
Theorem X1_crc8_is_byte (data : list Z) :
  is_byte (crc8 data) ∧ crc8 [] = 0xFF%Z.
Proof.
  split; [|reflexivity]. unfold crc8.
  assert (H : ∀ init, is_byte init → is_byte (fold_left crc8_byte data init)).
  { induction data as [|b data IH]; intros init Hinit; [done|].
    cbn [fold_left]. apply IH, crc8_byte_is_byte. }
  apply H. unfold is_byte. lia.
Qed.

(** Bytes are the numbers below 256. *)
Lemma is_byte_nat b : is_byte b → ∃ n, n < 256 ∧ b = Z.of_nat n.
Proof.
  intros [H0 H1]. exists (Z.to_nat b). split; lia.
Qed.

Lemma in_seq_256 n : n < 256 → In n (seq 0 256).
Proof. intros H. apply in_seq. lia. Qed.

(** On bytes the work on one byte is linear for the exclusive or. *)
Lemma crc8_byte_linear x y :
  is_byte x → is_byte y →
  is_byte (Z.lxor x y) ∧
  crc8_byte 0 (Z.lxor x y) = Z.lxor (crc8_byte 0 x) (crc8_byte 0 y).
Proof.
  intros (nx & Hx & ->)%is_byte_nat (ny & Hy & ->)%is_byte_nat.
  assert (Hall : forallb (λ a, forallb (λ b,
            let x := Z.of_nat a in let y := Z.of_nat b in
            (Z.lxor x y <? 256)%Z
            && (crc8_byte 0 (Z.lxor x y) =? Z.lxor (crc8_byte 0 x) (crc8_byte 0 y))%Z)
            (seq 0 256)) (seq 0 256) = true) by (vm_compute; reflexivity).
  rewrite forallb_forall in Hall. specialize (Hall nx (in_seq_256 _ Hx)).
  rewrite forallb_forall in Hall. specialize (Hall ny (in_seq_256 _ Hy)).
  cbv zeta in Hall. apply andb_true_iff in Hall as [Hlt Heq].
  split; [|by apply Z.eqb_eq].
  split; [apply Z.lxor_nonneg; lia|by apply Z.ltb_lt].
Qed.

Lemma crc8_byte_xor c b : crc8_byte c b = crc8_byte 0 (Z.lxor c b).
Proof. unfold crc8_byte. by rewrite Z.lxor_0_l. Qed.

(** No non-zero error pattern on two data bytes and their CRC byte has
    fewer than 4 bits set and still goes through. *)
Lemma crc8_word_distance e0 e1 :
  is_byte e0 → is_byte e1 → (e0 ≠ 0 ∨ e1 ≠ 0)%Z →
  4 ≤ popcount8 e0 + popcount8 e1
      + popcount8 (crc8_byte 0 (Z.lxor (crc8_byte 0 e0) e1)).
Proof.
  intros (n0 & H0 & ->)%is_byte_nat (n1 & H1 & ->)%is_byte_nat Hnz.
  assert (Hall : forallb (λ a, forallb (λ b,
            let x := Z.of_nat a in let y := Z.of_nat b in
            ((a =? 0) && (b =? 0))
            || (4 <=? popcount8 x + popcount8 y
                      + popcount8 (crc8_byte 0 (Z.lxor (crc8_byte 0 x) y))))
            (seq 0 256)) (seq 0 256) = true) by (vm_compute; reflexivity).
  rewrite forallb_forall in Hall. specialize (Hall n0 (in_seq_256 _ H0)).
  rewrite forallb_forall in Hall. specialize (Hall n1 (in_seq_256 _ H1)).
  cbv zeta in Hall. apply orb_true_iff in Hall as [Hz|Hw].
  - apply andb_true_iff in Hz as [Ha Hb].
    apply Nat.eqb_eq in Ha, Hb. lia.
  - by apply Nat.leb_le.
Qed.

Lemma lxor_swap_inner a b c d :
  Z.lxor (Z.lxor a b) (Z.lxor c d) = Z.lxor (Z.lxor a c) (Z.lxor b d).
Proof.
  rewrite !Z.lxor_assoc. f_equal.
  rewrite <- !Z.lxor_assoc. f_equal. apply Z.lxor_comm.
Qed.

(** The CRC of a corrupted word is the CRC of the word, changed by a value
    that only depends on the error pattern. *)
#[local] Opaque crc8_byte.

Lemma crc8_word_error d0 d1 e0 e1 :
  is_byte d0 → is_byte d1 → is_byte e0 → is_byte e1 →
  crc8 [Z.lxor d0 e0; Z.lxor d1 e1]
  = Z.lxor (crc8 [d0; d1]) (crc8_byte 0 (Z.lxor (crc8_byte 0 e0) e1)).
Proof.
  intros Hd0 Hd1 He0 He1. unfold crc8. cbn [fold_left].
  assert (Hff : is_byte 255) by (unfold is_byte; lia).
  destruct (crc8_byte_linear 255 d0 Hff Hd0) as [HA _].
  destruct (crc8_byte_linear _ _ HA He0) as [_ Hlin1].
  pose proof (crc8_byte_is_byte 255 d0) as HTA.
  pose proof (crc8_byte_is_byte 0 e0) as HTe.
  destruct (crc8_byte_linear _ _ HTA Hd1) as [HB _].
  destruct (crc8_byte_linear _ _ HTe He1) as [HS _].
  destruct (crc8_byte_linear _ _ HB HS) as [_ Hlin2].
  rewrite (crc8_byte_xor 255 d0) in Hlin2, HB.
  rewrite (crc8_byte_xor 255 (Z.lxor d0 e0)).
  rewrite (crc8_byte_xor 255 d0).
  rewrite <- (Z.lxor_assoc 255 d0 e0).
  rewrite Hlin1.
  rewrite (crc8_byte_xor (Z.lxor _ _) (Z.lxor d1 e1)).
  rewrite lxor_swap_inner.
  rewrite Hlin2.
  rewrite (crc8_byte_xor (crc8_byte 0 (Z.lxor 255 d0)) d1).
  reflexivity.
Qed.

Lemma validate_crc_detects (d0 d1 c e0 e1 ec : Z) :
  is_byte d0 → is_byte d1 → is_byte e0 → is_byte e1 →
  SHT41.validate_crc [d0; d1] c = true →
  0 < popcount8 e0 + popcount8 e1 + popcount8 ec ≤ 3 →
  SHT41.validate_crc [Z.lxor d0 e0; Z.lxor d1 e1] (Z.lxor c ec) = false.
Proof.
  intros Hd0 Hd1 He0 He1 Hok Hw. unfold SHT41.validate_crc in *.
  apply Z.eqb_eq in Hok. apply Z.eqb_neq. intros Heq.
  rewrite crc8_word_error, Hok in Heq by done.
  assert (Hs : crc8_byte 0 (Z.lxor (crc8_byte 0 e0) e1) = ec).
  { apply (f_equal (Z.lxor c)) in Heq.
    by rewrite <- !Z.lxor_assoc, Z.lxor_nilpotent, !Z.lxor_0_l in Heq. }
  destruct (Z.eq_dec e0 0%Z) as [->|Hn0]; [destruct (Z.eq_dec e1 0%Z) as [->|Hn1]|].
  - subst ec. vm_compute in Hw. lia.
  - pose proof (crc8_word_distance 0%Z e1 He0 He1 (or_intror Hn1)). rewrite Hs in *. lia.
  - pose proof (crc8_word_distance e0 e1 He0 He1 (or_introl Hn0)). rewrite Hs in *. lia.
Qed.

(** X2: a two-byte word that passes [validate_crc] with its CRC byte no
    longer passes once 1, 2 or 3 bits of the 24 are flipped. *)
Theorem X2_crc8_detects_three_bit_errors (d0 d1 c e0 e1 ec : Z) :
  is_byte d0 → is_byte d1 → is_byte e0 → is_byte e1 →
  SHT41.validate_crc [d0; d1] c = true →
  0 < popcount8 e0 + popcount8 e1 + popcount8 ec ≤ 3 →
  SHT41.validate_crc [Z.lxor d0 e0; Z.lxor d1 e1] (Z.lxor c ec) = false.
Proof. apply validate_crc_detects. Qed.

#[local] Transparent crc8_byte.

(** The hypotheses of X2 hold of the datasheet word 0xBEEF with CRC 0x92
    and one flipped bit. *)
Lemma X2_crc8_detects_three_bit_errors_witness :
  SHT41.validate_crc [0xBE; 0xEF]%Z 0x92%Z = true ∧
  SHT41.validate_crc [Z.lxor 0xBE 1; Z.lxor 0xEF 0]%Z (Z.lxor 0x92 0) = false.
Proof.
  split; [vm_compute; reflexivity|].
  apply (X2_crc8_detects_three_bit_errors 0xBE 0xEF 0x92 1 0 0).
  - unfold is_byte; lia.
  - unfold is_byte; lia.
  - unfold is_byte; lia.
  - unfold is_byte; lia.
  - vm_compute; reflexivity.
  - vm_compute. lia.
Defined.

(** ** Rounding keeps whole-number bounds *)

Lemma round_half_even_ge (y : Q) (z : Z) :
  (inject_Z z <= y)%Q → (z <= round_half_even y)%Z.
Proof.
  intros Hle. apply Qfloor_resp_le in Hle. rewrite Qfloor_Z in Hle.
  unfold round_half_even.
  destruct (Qltb _ _); [done|]. destruct (Qltb _ _); [lia|].
  destruct (Z.even _); lia.
Qed.

Lemma round_half_even_le (y : Q) (z : Z) :
  (y <= inject_Z z)%Q → (round_half_even y <= z)%Z.
Proof.
  intros Hle. pose proof (Qfloor_le y) as Hf.
  assert (Hfz : (Qfloor y <= z)%Z).
  { rewrite Zle_Qle. by apply Qle_trans with y. }
  assert (Hup : (1 # 2 <= y - inject_Z (Qfloor y))%Q → (Qfloor y + 1 <= z)%Z).
  { intros Hr. assert (Hlt : (inject_Z (Qfloor y) < inject_Z z)%Q).
    { revert Hr Hle. generalize (inject_Z (Qfloor y)) (inject_Z z).
      intros f q Hr Hle. lra. }
    rewrite <- Zlt_Qlt in Hlt. lia. }
  unfold round_half_even.
  destruct (Qltb (y - inject_Z (Qfloor y)) (1 # 2)) eqn:E1; [done|].
  apply Qltb_ge in E1. destruct (Qltb _ _); [by apply Hup|].
  destruct (Z.even _); [done|by apply Hup].
Qed.

(** [round(x, n)] stays within whole-number bounds of [x]. *)
Lemma py_round_int_ge (x : Q) (n : nat) (lo : Z) :
  (inject_Z lo <= x)%Q → (inject_Z lo <= py_round x n)%Q.
Proof.
  intros Hlo. unfold py_round. destruct n as [|n].
  - rewrite <- Zle_Qle. by apply round_half_even_ge.
  - set (p := (10 ^ Pos.of_nat (S n))%positive).
    assert (Hp : (0 <= inject_Z (Z.pos p))%Q) by (rewrite <- (Zle_Qle 0); lia).
    rewrite Qred_correct.
    assert (H : (lo * Z.pos p <= round_half_even (x * inject_Z (Z.pos p)))%Z).
    { apply round_half_even_ge. rewrite inject_Z_mult.
      by apply Qmult_le_compat_r. }
    unfold Qle. cbn. lia.
Qed.

Lemma py_round_int_le (x : Q) (n : nat) (hi : Z) :
  (x <= inject_Z hi)%Q → (py_round x n <= inject_Z hi)%Q.
Proof.
  intros Hhi. unfold py_round. destruct n as [|n].
  - rewrite <- Zle_Qle. by apply round_half_even_le.
  - set (p := (10 ^ Pos.of_nat (S n))%positive).
    assert (Hp : (0 <= inject_Z (Z.pos p))%Q) by (rewrite <- (Zle_Qle 0); lia).
    rewrite Qred_correct.
    assert (H : (round_half_even (x * inject_Z (Z.pos p)) <= hi * Z.pos p)%Z).
    { apply round_half_even_le. rewrite inject_Z_mult.
      by apply Qmult_le_compat_r. }
    unfold Qle. cbn. lia.
Qed.

Lemma py_round_int_bounds (x : Q) (n : nat) (lo hi : Z) :
  (inject_Z lo <= x <= inject_Z hi)%Q →
  (inject_Z lo <= py_round x n <= inject_Z hi)%Q.
Proof.
  intros [Hlo Hhi]. split; [by apply py_round_int_ge|by apply py_round_int_le].
Qed.

(** ** Decoding the SHT41 and SHTC3 frames *)

Lemma sht_word_range hi lo :
  is_byte hi → is_byte lo → (0 <= sht_word hi lo <= 65535)%Z.
Proof.
  intros (nh & Hh & ->)%is_byte_nat (nl & Hl & ->)%is_byte_nat.
  assert (Hall : forallb (λ a, forallb (λ b,
            let w := sht_word (Z.of_nat a) (Z.of_nat b) in
            (0 <=? w)%Z && (w <=? 65535)%Z)
            (seq 0 256)) (seq 0 256) = true) by (vm_compute; reflexivity).
  rewrite forallb_forall in Hall. specialize (Hall nh (in_seq_256 _ Hh)).
  rewrite forallb_forall in Hall. specialize (Hall nl (in_seq_256 _ Hl)).
  cbv zeta in Hall. apply andb_true_iff in Hall as [H0 H1]. lia.
Qed.

Lemma sht_temperature_range t_raw :
  (0 <= t_raw <= 65535)%Z → (-45 <= sht_temperature t_raw <= 130)%Q.
Proof.
  intros [H0 H1]. rewrite Zle_Qle in H0, H1.
  apply (py_round_int_bounds _ 1 (-45) 130).
  revert H0 H1. generalize (inject_Z t_raw) as q. intros q H0 H1.
  change (inject_Z 0) with 0%Q in H0. change (inject_Z 65535) with 65535%Q in H1.
  change (inject_Z (-45)) with (-45)%Q. change (inject_Z 130) with 130%Q.
  unfold Qdiv. change (/ 65535)%Q with (1 # 65535)%Q. split; lra.
Qed.

Lemma sht_humidity_range h_raw :
  (0 <= h_raw <= 65535)%Z → (0 <= sht_humidity h_raw <= 100)%Q.
Proof.
  intros [H0 H1]. rewrite Zle_Qle in H0, H1.
  apply (py_round_int_bounds _ 1 0 100).
  revert H0 H1. generalize (inject_Z h_raw) as q. intros q H0 H1.
  change (inject_Z 0) with 0%Q in *. change (inject_Z 65535) with 65535%Q in H1.
  change (inject_Z 100) with 100%Q.
  unfold Qdiv. change (/ 65535)%Q with (1 # 65535)%Q. split; lra.
Qed.

Lemma nth_is_byte (data : list Z) i : Forall is_byte data → is_byte (nth i data 0%Z).
Proof.
  intros Hall. destruct (data !! i) as [x|] eqn:E.
  - rewrite (nth_lookup_Some _ _ _ _ E). by eapply Forall_lookup_1.
  - rewrite nth_overflow by (by apply lookup_ge_None). unfold is_byte. lia.
Qed.

Lemma py_index_Returns (data : list Z) i x :
  py_index data i = Returns x → data !! i = Some x.
Proof. unfold py_index. destruct (data !! i); [by intros [= ->]|done]. Qed.

#[local] Opaque crc8_byte.

Lemma sht_frame_in_range (data : list Z) (t h : Q) :
  Forall is_byte data →
  SHT41.read_sht41 (Returns data) = Returns (t, h)
  ∨ SHTC3.measure (Returns data) = Returns (t, h) →
  (-45 <= t <= 130)%Q ∧ (0 <= h <= 100)%Q.
Proof.
  intros Hall [H41|H3].
  - unfold SHT41.read_sht41, obind in H41.
    destruct (negb (length data =? 6)); [done|].
    destruct (_ || _); [done|]. injection H41 as <- <-.
    split; [apply sht_temperature_range|apply sht_humidity_range];
      apply sht_word_range; by apply nth_is_byte.
  - unfold SHTC3.measure, obind in H3.
    destruct (py_index data 2) as [c2|]; [|done].
    destruct (negb _); [done|].
    destruct (py_index data 5) as [c5|]; [|done].
    destruct (negb _); [done|].
    destruct (py_index data 0) as [d0|] eqn:E0; [|done].
    destruct (py_index data 1) as [d1|] eqn:E1; [|done].
    destruct (py_index data 3) as [d3|] eqn:E3; [|done].
    destruct (py_index data 4) as [d4|] eqn:E4; [|done].
    injection H3 as <- <-.
    apply py_index_Returns in E0, E1, E3, E4.
    split; [apply sht_temperature_range|apply sht_humidity_range];
      apply sht_word_range; by eapply Forall_lookup_1.
Qed.

(** X3: a reading that [read_sht41] or [measure] returns from a frame of
    bytes lies in the range of the sensor: -45 to 130 degrees and 0 to 100
    per cent. *)
Theorem X3_sht_reading_in_range (data : list Z) (t h : Q) :
  Forall is_byte data →
  SHT41.read_sht41 (Returns data) = Returns (t, h)
  ∨ SHTC3.measure (Returns data) = Returns (t, h) →
  (-45 <= t <= 130)%Q ∧ (0 <= h <= 100)%Q.
Proof. apply sht_frame_in_range. Qed.

(** The hypotheses of X3 hold of the frame of the datasheet word 0xBEEF. *)
Lemma X3_sht_reading_in_range_witness :
  let data := [0xBE; 0xEF; 0x92; 0xBE; 0xEF; 0x92]%Z in
  Forall is_byte data ∧
  ∃ t h, SHT41.read_sht41 (Returns data) = Returns (t, h) ∧
         (-45 <= t <= 130)%Q ∧ (0 <= h <= 100)%Q.
Proof.
  assert (Hb : Forall is_byte [0xBE; 0xEF; 0x92; 0xBE; 0xEF; 0x92]%Z).
  { repeat constructor; unfold is_byte; lia. }
  split; [exact Hb|].
  eexists _, _. split; [vm_compute; reflexivity|].
  eapply (X3_sht_reading_in_range _ _ _ Hb). left. vm_compute. reflexivity.
Defined.

(** X4: on a 6-byte frame [measure] of the SHTC3 module and [read_sht41]
    return the same reading or both none; on a shorter frame [measure]
    never returns a reading, although it has no length check. *)
Theorem X4_measure_agrees_with_read_sht41 (data : list Z) :
  (length data = 6 →
   ∀ r, SHTC3.measure (Returns data) = Returns r
        ↔ SHT41.read_sht41 (Returns data) = Returns r) ∧
  (length data < 6 → ∀ r, SHTC3.measure (Returns data) ≠ Returns r) ∧
  (length data ≠ 6 → ∀ r, SHT41.read_sht41 (Returns data) ≠ Returns r).
Proof.
  split; [|split].
  - intros Hlen r.
    destruct data as [|d0 [|d1 [|c0 [|d3 [|d4 [|c1 [|? ?]]]]]]]; try discriminate.
    unfold SHTC3.measure, SHT41.read_sht41, SHT41.validate_crc, obind, py_index.
    cbn [length Nat.eqb negb lookup list_lookup nth].
    change (py_slice [d0; d1; c0; d3; d4; c1] 0 2) with [d0; d1].
    change (py_slice [d0; d1; c0; d3; d4; c1] 3 5) with [d3; d4].
    destruct (crc8 [d0; d1] =? c0)%Z; cbn [negb orb]; [|done].
    destruct (crc8 [d3; d4] =? c1)%Z; cbn [negb orb]; done.
  - intros Hlen r. unfold SHTC3.measure, obind, py_index.
    destruct data as [|d0 [|d1 [|c0 [|d3 [|d4 [|c1 ?]]]]]];
      cbn [length] in Hlen; try lia; cbn [lookup list_lookup]; try done;
      destruct (negb _); done.
  - intros Hlen r. unfold SHT41.read_sht41, obind.
    destruct (Nat.eqb_spec (length data) 6) as [|_]; done.
Qed.

(** The hypothesis of X4 holds of the frame of the datasheet word. *)
Lemma X4_measure_agrees_with_read_sht41_witness :
  let data := [0xBE; 0xEF; 0x92; 0xBE; 0xEF; 0x92]%Z in
  length data = 6 ∧
  ∀ r, SHTC3.measure (Returns data) = Returns r
       ↔ SHT41.read_sht41 (Returns data) = Returns r.
Proof.
  split; [reflexivity|].
  by apply (X4_measure_agrees_with_read_sht41 [0xBE; 0xEF; 0x92; 0xBE; 0xEF; 0x92]%Z).
Defined.

#[local] Transparent crc8_byte.

(** X5: [read_single_sensor] with the ID check returns a reading exactly
    when the reset, the wake-up, the ID check, the measurement and the
    final sleep command all succeed; a reading measured is lost when the
    sleep command fails, and a bus error during the ID read counts as a
    failed check. *)
Theorem X5_read_single_sensor_needs_every_step (io : SHTC3.sensor_io) (r : Q * Q) :
  (SHTC3.read_single_sensor io true = Returns r
   ↔ SHTC3.io_reset io = Returns tt ∧ SHTC3.io_wake io = Returns tt ∧
     SHTC3.verify_wake (SHTC3.io_id io) = true ∧
     SHTC3.measure (SHTC3.io_measure io) = Returns r ∧
     SHTC3.io_sleep io = Returns tt) ∧
  (∀ e, SHTC3.verify_wake (Raises e) = false) ∧
  (SHTC3.io_reset io = Returns tt → SHTC3.io_wake io = Returns tt →
   SHTC3.verify_wake (SHTC3.io_id io) = false →
   SHTC3.read_single_sensor io true = Raises (Exception "RuntimeError")).
Proof.
  split; [|split; [done|]].
  - unfold SHTC3.read_single_sensor, obind. split.
    + destruct (SHTC3.io_reset io) as [[]|]; [|done].
      destruct (SHTC3.io_wake io) as [[]|]; [|done].
      destruct (SHTC3.verify_wake _); cbn [andb negb]; [|done].
      destruct (SHTC3.measure _) as [[t h]|]; [|done].
      destruct (SHTC3.io_sleep io) as [[]|]; [|done].
      by intros [= <-].
    + intros (-> & -> & -> & -> & ->). by destruct r.
  - intros Hr Hw Hv. unfold SHTC3.read_single_sensor, obind.
    by rewrite Hr, Hw, Hv.
Qed.

(** ** The MH-Z19B frame *)

(** X6: [read_mhz19] accepts exactly the 9-byte responses that start with
    0xFF 0x86; from bytes it yields a CO2 value between 0 and 65535 and a
    temperature between -40 and 215, and it hands the response back
    unchanged. *)
Theorem X6_read_mhz19_accepts_by_header (resp : list Z) :
  (∀ c t raw,
     MH_Z19B.read_mhz19 (Returns resp) = Returns (Some (c, t, raw)) ↔
     length resp = 9 ∧ nth 0 resp 0%Z = 0xFF%Z ∧ nth 1 resp 0%Z = 0x86%Z ∧
     c = (nth 2 resp 0 * 256 + nth 3 resp 0)%Z ∧ t = (nth 4 resp 0 - 40)%Z ∧
     raw = resp) ∧
  (∀ c t raw,
     Forall is_byte resp →
     MH_Z19B.read_mhz19 (Returns resp) = Returns (Some (c, t, raw)) →
     (0 <= c <= 65535)%Z ∧ (-40 <= t <= 215)%Z) ∧
  (∀ e, MH_Z19B.read_mhz19 (Returns resp) ≠ Raises e).
Proof.
  assert (Hiff : ∀ c t raw,
     MH_Z19B.read_mhz19 (Returns resp) = Returns (Some (c, t, raw)) ↔
     length resp = 9 ∧ nth 0 resp 0%Z = 0xFF%Z ∧ nth 1 resp 0%Z = 0x86%Z ∧
     c = (nth 2 resp 0 * 256 + nth 3 resp 0)%Z ∧ t = (nth 4 resp 0 - 40)%Z ∧
     raw = resp).
  { intros c t raw. unfold MH_Z19B.read_mhz19, obind.
    destruct (Nat.eqb_spec (length resp) 9) as [Hl|Hl];
      destruct (Z.eqb_spec (nth 0 resp 0%Z) 0xFF) as [H0|H0];
      destruct (Z.eqb_spec (nth 1 resp 0%Z) 0x86) as [H1|H1];
      cbn [negb orb]; split; try done; try (intros (? & ? & ? & _); done).
    - by intros [= <- <- <-].
    - by intros (_ & _ & _ & -> & -> & ->). }
  split; [exact Hiff|]. split.
  - intros c t raw Hall (_ & _ & _ & -> & -> & _)%Hiff.
    pose proof (nth_is_byte resp 2 Hall). pose proof (nth_is_byte resp 3 Hall).
    pose proof (nth_is_byte resp 4 Hall). unfold is_byte in *. lia.
  - intros e. unfold MH_Z19B.read_mhz19, obind. by destruct (_ || _).
Qed.

(** X7: [read_mhz19] never looks at the last four bytes of the response,
    the checksum among them: two 9-byte responses with the same first five
    bytes are both rejected or give the same CO2 value and temperature. *)
Theorem X7_read_mhz19_ignores_checksum (resp resp' : list Z) :
  length resp = 9 → length resp' = 9 → take 5 resp = take 5 resp' →
  match MH_Z19B.read_mhz19 (Returns resp), MH_Z19B.read_mhz19 (Returns resp') with
  | Returns (Some (c, t, _)), Returns (Some (c', t', _)) => c = c' ∧ t = t'
  | Returns None, Returns None => True
  | _, _ => False
  end.
Proof.
  intros Hl Hl' Htake.
  destruct resp as [|a0 [|a1 [|a2 [|a3 [|a4 [|a5 [|a6 [|a7 [|a8 [|? ?]]]]]]]]]];
    try discriminate.
  destruct resp' as [|b0 [|b1 [|b2 [|b3 [|b4 [|b5 [|b6 [|b7 [|b8 [|? ?]]]]]]]]]];
    try discriminate.
  injection Htake as -> -> -> -> ->.
  unfold MH_Z19B.read_mhz19, obind. cbn [length Nat.eqb negb orb nth].
  by destruct (_ || _).
Qed.

(** The hypotheses of X7 hold of a response and its copy with another
    checksum byte. *)
Lemma X7_read_mhz19_ignores_checksum_witness :
  let resp := [0xFF; 0x86; 0x01; 0x90; 0x3C; 0; 0; 0; 0xAD]%Z in
  let resp' := [0xFF; 0x86; 0x01; 0x90; 0x3C; 0; 0; 0; 0x00]%Z in
  length resp = 9 ∧ length resp' = 9 ∧ take 5 resp = take 5 resp' ∧
  match MH_Z19B.read_mhz19 (Returns resp), MH_Z19B.read_mhz19 (Returns resp') with
  | Returns (Some (c, t, _)), Returns (Some (c', t', _)) => c = c' ∧ t = t'
  | Returns None, Returns None => True
  | _, _ => False
  end.
Proof.
  split; [reflexivity|]. split; [reflexivity|]. split; [reflexivity|].
  by apply (X7_read_mhz19_ignores_checksum
              [0xFF; 0x86; 0x01; 0x90; 0x3C; 0; 0; 0; 0xAD]%Z
              [0xFF; 0x86; 0x01; 0x90; 0x3C; 0; 0; 0; 0x00]%Z).
Defined.


(** ** The dust sensor *)

Lemma py_max_ge_l a b : (a <= GP2Y1010AU0F.py_max a b)%Q.
Proof.
  unfold GP2Y1010AU0F.py_max. destruct (Qltb a b) eqn:E; [|apply Qle_refl].
  apply Qltb_lt in E. by apply Qlt_le_weak.
Qed.

Lemma py_sum_from_nonneg (l : list Q) (a : Q) :
  (0 <= a)%Q → Forall (λ v, (0 <= v)%Q) l → (0 <= fold_left Qplus l a)%Q.
Proof.
  revert a. induction l as [|x l IH]; intros a Ha Hl; [done|].
  apply Forall_cons in Hl as [Hx Hl]. cbn [fold_left]. apply IH; [|done].
  revert Ha Hx. generalize a x. intros p q Hp Hq. lra.
Qed.

Lemma py_len_pos {A} (x : A) (l : list A) : (0 < py_len (x :: l))%Q.
Proof.
  unfold py_len. rewrite <- (Zlt_Qlt 0). cbn [length]. lia.
Qed.

Lemma mean_nonneg (x : Q) (l : list Q) :
  Forall (λ v, (0 <= v)%Q) (x :: l) → (0 <= py_sum (x :: l) / py_len (x :: l))%Q.
Proof.
  intros Hl. apply Qle_shift_div_l; [apply py_len_pos|].
  rewrite Qmult_0_l. apply py_sum_from_nonneg; [apply Qle_refl|done].
Qed.

Lemma filter_Forall {A} (P : A → Prop) (f : A → bool) (l : list A) :
  Forall P l → Forall P (List.filter f l).
Proof.
  induction 1 as [|x l Hx Hl IH]; cbn; [constructor|].
  destruct (f x); [by constructor|done].
Qed.

Lemma reject_outliers_Forall sqrt (P : Q → Prop) data m :
  Forall P data → Forall P (GP2Y1010AU0F.reject_outliers sqrt data m).
Proof.
  intros H. unfold GP2Y1010AU0F.reject_outliers.
  destruct (length data <? 2); [done|]. by apply filter_Forall.
Qed.

Lemma sample_voltages_nonneg chan i n voltages :
  GP2Y1010AU0F.sample_voltages chan i n = Returns voltages →
  Forall (λ v, (0 <= v)%Q) voltages ∧ length voltages = n.
Proof.
  revert i voltages. induction n as [|n IH]; intros i voltages; cbn.
  - by intros [= <-].
  - unfold obind. destruct (chan i) as [v|]; [|done].
    destruct (GP2Y1010AU0F.sample_voltages chan (S i) n) as [rest|] eqn:E; [|done].
    intros [= <-]. destruct (IH _ _ E) as [Hall Hlen]. split.
    + constructor; [apply py_max_ge_l|done].
    + cbn. by rewrite Hlen.
Qed.

Lemma dust_from_voltages_range sqrt voltages :
  Forall (λ v, (0 <= v)%Q) voltages →
  let r := GP2Y1010AU0F.dust_from_voltages sqrt voltages in
  (0 <= fst r)%Q ∧ (0 <= snd r <= 500)%Q.
Proof.
  intros Hall. unfold GP2Y1010AU0F.dust_from_voltages. cbv zeta. cbn [fst snd].
  apply (reject_outliers_Forall sqrt _ _ 2) in Hall.
  split.
  - destruct (GP2Y1010AU0F.reject_outliers sqrt voltages 2) as [|x l];
      [apply Qle_refl|by apply mean_nonneg].
  - set (mg := GP2Y1010AU0F.py_max 0 _).
    assert (Hmg : (0 <= mg)%Q) by apply py_max_ge_l.
    destruct (Qltb GP2Y1010AU0F.MAX_VALID_UG (mg * 1000)) eqn:E.
    + split; [apply Qle_refl|done].
    + apply Qltb_ge in E. unfold GP2Y1010AU0F.MAX_VALID_UG in E.
      revert Hmg E. generalize mg. intros q Hq E. split; lra.
Qed.

Lemma read_dust_range (sqrt : Q → Q) (init_result : outcome unit)
    (chan_voltage : nat → outcome Q) (avg_v density_ug : Q) :
  GP2Y1010AU0F.read_dust sqrt init_result chan_voltage = Returns (avg_v, density_ug) →
  (0 <= avg_v)%Q ∧ (0 <= density_ug <= 500)%Q.
Proof.
  unfold GP2Y1010AU0F.read_dust, obind.
  destruct init_result as [[]|]; [|done].
  destruct (GP2Y1010AU0F.sample_voltages _ _ _) as [voltages|] eqn:E; [|done].
  intros Hr. apply sample_voltages_nonneg in E as [Hall _].
  assert (Hd : GP2Y1010AU0F.dust_from_voltages sqrt voltages = (avg_v, density_ug))
    by congruence.
  pose proof (dust_from_voltages_range sqrt voltages Hall) as Hrange.
  cbv zeta in Hrange. rewrite Hd in Hrange. exact Hrange.
Qed.

(** X9: whatever the converter delivers and whatever the outlier filter
    keeps, [read_dust] returns a voltage that is not negative and a dust
    density between 0 and 500. *)
Theorem X9_read_dust_in_range (sqrt : Q → Q) (init_result : outcome unit)
    (chan_voltage : nat → outcome Q) (avg_v density_ug : Q) :
  GP2Y1010AU0F.read_dust sqrt init_result chan_voltage = Returns (avg_v, density_ug) →
  (0 <= avg_v)%Q ∧ (0 <= density_ug <= 500)%Q.
Proof. apply read_dust_range. Qed.

(** The hypothesis of X9 holds of ten readings of 0.01 V. *)
Lemma X9_read_dust_in_range_witness :
  let sqrt := λ _ : Q, 0%Q in
  let chan := λ _ : nat, Returns (1 # 100)%Q in
  ∃ v ug, GP2Y1010AU0F.read_dust sqrt (Returns tt) chan = Returns (v, ug) ∧
          (0 <= v)%Q ∧ (0 <= ug <= 500)%Q.
Proof.
  eexists _, _. split; [vm_compute; reflexivity|].
  eapply (X9_read_dust_in_range (λ _, 0%Q) (Returns tt) (λ _, Returns (1 # 100)%Q)).
  vm_compute. reflexivity.
Defined.

Lemma filter_sublist {A} (f : A → bool) (l : list A) : List.filter f l `sublist_of` l.
Proof.
  induction l as [|x l IH]; cbn; [constructor|].
  destruct (f x); by constructor.
Qed.

(** X10: [reject_outliers] only drops values: what it returns is the data
    with some elements left out, in the same order; fewer than two values
    come back unchanged. *)
Theorem X10_reject_outliers_only_drops (sqrt : Q → Q) (data : list Q) (m : Q) :
  GP2Y1010AU0F.reject_outliers sqrt data m `sublist_of` data ∧
  (length data < 2 → GP2Y1010AU0F.reject_outliers sqrt data m = data).
Proof.
  unfold GP2Y1010AU0F.reject_outliers.
  destruct (Nat.ltb_spec (length data) 2) as [Hlt|Hge].
  - done.
  - split; [apply filter_sublist|lia].
Qed.

(** ** What the workers write *)

Lemma shtc3_step_entry ch read l :
  shtc3 (fst (shtc3_step ch read l)) = <[ch := th_entry read]> (shtc3 l).
Proof. unfold shtc3_step. by destruct read as [[t h]|e]. Qed.

Lemma shtc3_steps_keeps_entry chs read l ch :
  shtc3 l !! ch = Some (th_entry (read ch)) →
  shtc3 (fst (shtc3_steps chs read l)) !! ch = Some (th_entry (read ch)).
Proof.
  revert l. induction chs as [|c rest IH]; intros l Hl; [done|].
  cbn [shtc3_steps].
  pose proof (shtc3_step_entry c (read c) l) as Hstep.
  destruct (shtc3_step c (read c) l) as [l1 p1].
  specialize (IH l1). destruct (shtc3_steps rest read l1) as [l2 p2].
  cbn [fst] in *. apply IH. rewrite Hstep.
  destruct (decide (c = ch)) as [->|Hne].
  - apply lookup_insert_eq.
  - by rewrite lookup_insert_ne.
Qed.

Lemma shtc3_steps_entry chs read l ch :
  ch ∈ chs →
  shtc3 (fst (shtc3_steps chs read l)) !! ch = Some (th_entry (read ch)).
Proof.
  revert l. induction chs as [|c rest IH]; intros l Hin.
  - by apply elem_of_nil in Hin.
  - cbn [shtc3_steps].
    pose proof (shtc3_step_entry c (read c) l) as Hstep.
    destruct (shtc3_step c (read c) l) as [l1 p1].
    destruct (decide (c = ch)) as [->|Hne].
    + pose proof (shtc3_steps_keeps_entry rest read l1 ch) as Hk.
      destruct (shtc3_steps rest read l1) as [l2 p2]. cbn [fst] in *.
      apply Hk. rewrite Hstep. apply lookup_insert_eq.
    + apply elem_of_cons in Hin as [->|Hin]; [done|].
      specialize (IH l1 Hin).
      by destruct (shtc3_steps rest read l1) as [l2 p2].
Qed.

Lemma mux_sht41_entry read41 read3 l :
  sht41 (fst (worker_mux_shts_iter read41 read3 l)) = th_entry read41.
Proof.
  unfold worker_mux_shts_iter.
  destruct (sht41_step read41 l) as [l1 p1] eqn:E1.
  pose proof (shtc3_steps_other_fields TARGET_CHANNELS read3 l1) as (H41 & _).
  destruct (shtc3_steps _ _ _) as [l2 p2]. cbn [fst] in *. rewrite H41.
  unfold sht41_step in E1. by destruct read41 as [[t h]|e]; injection E1 as <- _.
Qed.

Lemma mux_shtc3_entry read41 read3 l ch :
  ch ∈ TARGET_CHANNELS →
  shtc3 (fst (worker_mux_shts_iter read41 read3 l)) !! ch
  = Some (th_entry (read3 ch)).
Proof.
  intros Hin. unfold worker_mux_shts_iter.
  destruct (sht41_step read41 l) as [l1 p1].
  pose proof (shtc3_steps_entry TARGET_CHANNELS read3 l1 ch Hin) as H.
  by destruct (shtc3_steps _ _ _) as [l2 p2].
Qed.

(** X12: what a worker iteration leaves in its own entries is decided by
    the reads of that iteration alone: the SHT41 entry and the entry of
    every SHTC3 channel hold the reading just taken or [None], and the
    BME280 (with a driver), dust and CO2 entries do not depend on the
    state before. *)
Theorem X12_worker_entries_come_from_this_iteration :
  (∀ read41 read3 l,
     sht41 (fst (worker_mux_shts_iter read41 read3 l)) = th_entry read41) ∧
  (∀ read41 read3 l ch,
     ch ∈ TARGET_CHANNELS →
     shtc3 (fst (worker_mux_shts_iter read41 read3 l)) !! ch
     = Some (th_entry (read3 ch))) ∧
  (∀ h read_bme read_dust l l',
     bme280 (fst (worker_bme_gp2y_iter (Some h) read_bme read_dust l))
     = bme280 (fst (worker_bme_gp2y_iter (Some h) read_bme read_dust l'))) ∧
  (∀ _bme read_bme read_dust l l',
     gp2y (fst (worker_bme_gp2y_iter _bme read_bme read_dust l))
     = gp2y (fst (worker_bme_gp2y_iter _bme read_bme read_dust l'))) ∧
  (∀ ser read last l l',
     mhz19b (fst (worker_mhz_iter ser read last l))
     = mhz19b (fst (worker_mhz_iter ser read last l'))).
Proof.
  split; [exact mux_sht41_entry|]. split; [exact mux_shtc3_entry|].
  split; [|split].
  - intros h rb rd l l'. unfold worker_bme_gp2y_iter, bme_step, gp2y_step.
    by destruct rb as [[[[temp hum] pres] alt]|e], rd as [[v ug]|e'].
  - intros b rb rd l l'. unfold worker_bme_gp2y_iter, gp2y_step.
    destruct (bme_step b rb l) as [l1 p1], (bme_step b rb l') as [l1' p1'].
    by destruct rd as [[v ug]|e'].
  - intros ser read last l l'. unfold worker_mhz_iter.
    by destruct ser, read as [[[[c t] raw]|]|e], last as [[[c' t'] raw']|].
Qed.

(** X13: the three workers write disjoint keys of [latest]: an iteration
    of one leaves every entry of the others as it was, and iterations of
    two different workers give the same state in either order. *)
Theorem X13_workers_write_disjoint_keys :
  (∀ read41 read3 l,
     let l' := fst (worker_mux_shts_iter read41 read3 l) in
     bme280 l' = bme280 l ∧ gp2y l' = gp2y l ∧ mhz19b l' = mhz19b l) ∧
  (∀ _bme read_bme read_dust l,
     let l' := fst (worker_bme_gp2y_iter _bme read_bme read_dust l) in
     sht41 l' = sht41 l ∧ shtc3 l' = shtc3 l ∧ mhz19b l' = mhz19b l) ∧
  (∀ ser read last l,
     let l' := fst (worker_mhz_iter ser read last l) in
     sht41 l' = sht41 l ∧ shtc3 l' = shtc3 l ∧ bme280 l' = bme280 l ∧
     gp2y l' = gp2y l) ∧
  (∀ read41 read3 _bme read_bme read_dust l,
     fst (worker_bme_gp2y_iter _bme read_bme read_dust
            (fst (worker_mux_shts_iter read41 read3 l)))
     = fst (worker_mux_shts_iter read41 read3
              (fst (worker_bme_gp2y_iter _bme read_bme read_dust l)))) ∧
  (∀ read41 read3 ser read last l,
     fst (worker_mhz_iter ser read last
            (fst (worker_mux_shts_iter read41 read3 l)))
     = fst (worker_mux_shts_iter read41 read3
              (fst (worker_mhz_iter ser read last l)))) ∧
  (∀ _bme read_bme read_dust ser read last l,
     fst (worker_mhz_iter ser read last
            (fst (worker_bme_gp2y_iter _bme read_bme read_dust l)))
     = fst (worker_bme_gp2y_iter _bme read_bme read_dust
              (fst (worker_mhz_iter ser read last l)))).
Proof.
  repeat apply conj.
  - intros r41 r3 l. cbv zeta. unfold worker_mux_shts_iter.
    destruct (sht41_step r41 l) as [l1 p1] eqn:E1.
    pose proof (shtc3_steps_other_fields TARGET_CHANNELS r3 l1) as (_ & Hb & Hg & Hm).
    destruct (shtc3_steps _ _ _) as [l2 p2]. cbn [fst] in *.
    rewrite Hb, Hg, Hm. unfold sht41_step in E1.
    by destruct r41 as [[t h]|e]; injection E1 as <- _.
  - intros b rb rd l. cbv zeta. unfold worker_bme_gp2y_iter, bme_step, gp2y_step.
    by destruct b, rb as [[[[temp hum] pres] alt]|e], rd as [[v ug]|e'].
  - intros ser read last l. cbv zeta. unfold worker_mhz_iter.
    by destruct ser, read as [[[[c t] raw]|]|e], last as [[[c' t'] raw']|].
  - intros r41 r3 b rb rd l. destruct l.
    unfold worker_mux_shts_iter, worker_bme_gp2y_iter, TARGET_CHANNELS.
    cbn [shtc3_steps].
    by destruct r41 as [[? ?]|?], (r3 2) as [[? ?]|?], (r3 3) as [[? ?]|?],
      (r3 4) as [[? ?]|?], (r3 5) as [[? ?]|?], b,
      rb as [[[[? ?] ?] ?]|?], rd as [[? ?]|?].
  - intros r41 r3 ser read last l. destruct l.
    unfold worker_mux_shts_iter, worker_mhz_iter, TARGET_CHANNELS.
    cbn [shtc3_steps].
    by destruct r41 as [[? ?]|?], (r3 2) as [[? ?]|?], (r3 3) as [[? ?]|?],
      (r3 4) as [[? ?]|?], (r3 5) as [[? ?]|?], ser,
      read as [[[[? ?] ?]|]|?], last as [[[? ?] ?]|].
  - intros b rb rd ser read last l. destruct l.
    unfold worker_bme_gp2y_iter, worker_mhz_iter.
    by destruct b, rb as [[[[? ?] ?] ?]|?], rd as [[? ?]|?], ser,
      read as [[[[? ?] ?]|]|?], last as [[[? ?] ?]|].
Qed.

(** ** From the bus to the shared state *)

Lemma th_entry_Some r x :
  th_entry r = Some x → ∃ t h, r = Returns (t, h) ∧ x = {| temp_c := t; rh := h |}.
Proof.
  destruct r as [[t h]|e]; [|done]. intros [= <-]. by exists t, h.
Qed.

Lemma read_single_sensor_measured io verify r :
  SHTC3.read_single_sensor io verify = Returns r →
  SHTC3.measure (SHTC3.io_measure io) = Returns r.
Proof.
  unfold SHTC3.read_single_sensor, obind.
  destruct (SHTC3.io_reset io) as [[]|]; [|done].
  destruct (SHTC3.io_wake io) as [[]|]; [|done].
  destruct (_ && _); [done|].
  destruct (SHTC3.measure _) as [[t h]|]; [|done].
  destruct (SHTC3.io_sleep io) as [[]|]; [|done].
  by intros [= <-].
Qed.

(** X14: when the bus delivers bytes, every temperature and humidity
    reading that an iteration of the multiplexer worker puts into [latest]
    lies in the range of the sensor. *)
Theorem X14_shared_readings_in_sensor_range (sel : outcome unit)
    (bus : outcome (list Z)) (sel3 : nat → outcome unit)
    (io : nat → SHTC3.sensor_io) (l : Latest) :
  (∀ data, bus = Returns data → Forall is_byte data) →
  (∀ ch data, SHTC3.io_measure (io ch) = Returns data → Forall is_byte data) →
  let l' := fst (worker_mux_shts_iter (sht41_transaction sel bus)
                   (λ ch, shtc3_transaction (sel3 ch) (io ch)) l) in
  (∀ r, sht41 l' = Some r → th_in_range r) ∧
  (∀ ch r, ch ∈ TARGET_CHANNELS → shtc3 l' !! ch = Some (Some r) → th_in_range r).
Proof.
  intros Hbus Hio l'. subst l'. split.
  - intros r. rewrite mux_sht41_entry.
    intros (t & h & Htr & ->)%th_entry_Some.
    unfold sht41_transaction, obind in Htr.
    destruct sel as [[]|]; [|done].
    destruct bus as [data|e] eqn:Eb; [|done].
    apply (sht_frame_in_range data t h); [by apply Hbus|by left].
  - intros ch r Hin. rewrite (mux_shtc3_entry _ _ _ _ Hin).
    intros [= (t & h & Htr & ->)%th_entry_Some].
    unfold shtc3_transaction, obind in Htr.
    destruct (sel3 ch) as [[]|]; [|done].
    apply read_single_sensor_measured in Htr.
    destruct (SHTC3.io_measure (io ch)) as [data|e] eqn:Em; [|done].
    apply (sht_frame_in_range data t h); [by apply (Hio ch)|by right].
Qed.

(** The hypotheses of X14 hold of a bus that delivers the frame of the
    datasheet word everywhere. *)
Lemma X14_shared_readings_in_sensor_range_witness :
  let frame := [0xBE; 0xEF; 0x92; 0xBE; 0xEF; 0x92]%Z in
  let io := {| SHTC3.io_reset := Returns tt; SHTC3.io_wake := Returns tt;
               SHTC3.io_id := Returns [0xBE; 0xEF; 0x92]%Z;
               SHTC3.io_measure := Returns frame;
               SHTC3.io_sleep := Returns tt |} in
  let l' := fst (worker_mux_shts_iter (sht41_transaction (Returns tt) (Returns frame))
                   (λ ch, shtc3_transaction (Returns tt) io) latest0) in
  (∀ r, sht41 l' = Some r → th_in_range r) ∧
  (∀ ch r, ch ∈ TARGET_CHANNELS → shtc3 l' !! ch = Some (Some r) → th_in_range r).
Proof.
  assert (Hb : Forall is_byte [0xBE; 0xEF; 0x92; 0xBE; 0xEF; 0x92]%Z).
  { repeat constructor; unfold is_byte; lia. }
  apply (X14_shared_readings_in_sensor_range (Returns tt)
           (Returns [0xBE; 0xEF; 0x92; 0xBE; 0xEF; 0x92]%Z) (λ _, Returns tt)).
  - by intros data [= <-].
  - by intros ch data [= <-].
Defined.

Lemma popcount8_zero e : is_byte e → popcount8 e = 0 → e = 0%Z.
Proof.
  intros (n & Hn & ->)%is_byte_nat Hp.
  assert (Hall : forallb (λ a, (a =? 0) || negb (popcount8 (Z.of_nat a) =? 0))
                   (seq 0 256) = true) by (vm_compute; reflexivity).
  rewrite forallb_forall in Hall. specialize (Hall n (in_seq_256 _ Hn)).
  apply orb_true_iff in Hall as [H0|Hnz].
  - apply Nat.eqb_eq in H0. by subst.
  - rewrite Hp in Hnz. done.
Qed.

#[local] Opaque crc8_byte.

Lemma corrupted_word_cases d0 d1 c e0 e1 ec :
  is_byte d0 → is_byte d1 → is_byte e0 → is_byte e1 → is_byte ec →
  SHT41.validate_crc [d0; d1] c = true →
  popcount8 e0 + popcount8 e1 + popcount8 ec ≤ 3 →
  (popcount8 e0 + popcount8 e1 + popcount8 ec = 0 ∧
   Z.lxor d0 e0 = d0 ∧ Z.lxor d1 e1 = d1 ∧ Z.lxor c ec = c) ∨
  SHT41.validate_crc [Z.lxor d0 e0; Z.lxor d1 e1] (Z.lxor c ec) = false.
Proof.
  intros Hd0 Hd1 He0 He1 Hec Hok Hw.
  destruct (Nat.eq_dec (popcount8 e0 + popcount8 e1 + popcount8 ec) 0) as [Hz|Hnz].
  - left. split; [done|].
    rewrite (popcount8_zero e0), (popcount8_zero e1), (popcount8_zero ec)
      by (done || lia).
    by rewrite !Z.lxor_0_r.
  - right. apply validate_crc_detects; try done. lia.
Qed.

(** X15: a 6-byte frame that [read_sht41] accepts, with up to 3 bits
    flipped in the temperature word and its CRC and up to 3 in the humidity
    word and its CRC, at least one in all, is refused: the worker iteration
    that receives it leaves [latest["sht41"]] at [None]. *)
Theorem X15_corrupted_frame_clears_entry (d0 d1 c0 d3 d4 c1 : Z)
    (e0 e1 ec f0 f1 fc : Z) (sel : outcome unit)
    (read3 : nat → outcome (Q * Q)) (l : Latest) :
  Forall is_byte [d0; d1; c0; d3; d4; c1; e0; e1; ec; f0; f1; fc] →
  (∃ r, SHT41.read_sht41 (Returns [d0; d1; c0; d3; d4; c1]) = Returns r) →
  popcount8 e0 + popcount8 e1 + popcount8 ec ≤ 3 →
  popcount8 f0 + popcount8 f1 + popcount8 fc ≤ 3 →
  0 < popcount8 e0 + popcount8 e1 + popcount8 ec
      + (popcount8 f0 + popcount8 f1 + popcount8 fc) →
  let frame := [Z.lxor d0 e0; Z.lxor d1 e1; Z.lxor c0 ec;
                Z.lxor d3 f0; Z.lxor d4 f1; Z.lxor c1 fc] in
  SHT41.read_sht41 (Returns frame) = Raises (Exception "ValueError") ∧
  sht41 (fst (worker_mux_shts_iter (sht41_transaction sel (Returns frame))
                read3 l)) = None.
Proof.
  intros Hbytes [r Hr] Hw1 Hw2 Hpos frame.
  repeat (apply Forall_cons in Hbytes as [? Hbytes]).
  assert (Hok : SHT41.validate_crc [d0; d1] c0 = true
                ∧ SHT41.validate_crc [d3; d4] c1 = true).
  { unfold SHT41.read_sht41, obind in Hr. cbn [length Nat.eqb negb nth] in Hr.
    change (py_slice [d0; d1; c0; d3; d4; c1] 0 2) with [d0; d1] in Hr.
    change (py_slice [d0; d1; c0; d3; d4; c1] 3 5) with [d3; d4] in Hr.
    destruct (SHT41.validate_crc [d0; d1] c0); [|done].
    by destruct (SHT41.validate_crc [d3; d4] c1). }
  destruct Hok as [Hok1 Hok2].
  assert (Hrej : SHT41.read_sht41 (Returns frame) = Raises (Exception "ValueError")).
  { unfold SHT41.read_sht41, obind, frame. cbn [length Nat.eqb negb nth].
    change (py_slice [?a; ?b; ?c; ?d; ?e; ?f] 0 2) with [a; b].
    change (py_slice [?a; ?b; ?c; ?d; ?e; ?f] 3 5) with [d; e].
    destruct (corrupted_word_cases d0 d1 c0 e0 e1 ec) as [(Hz1 & _)|Hbad1];
      try done; [|by rewrite Hbad1].
    destruct (corrupted_word_cases d3 d4 c1 f0 f1 fc) as [(Hz2 & _)|Hbad2];
      try done; [lia|].
    rewrite Hbad2. by rewrite orb_true_r. }
  split; [exact Hrej|].
  rewrite mux_sht41_entry. unfold sht41_transaction, obind.
  destruct sel as [[]|]; [|done]. by rewrite Hrej.
Qed.

#[local] Transparent crc8_byte.

(** The hypotheses of X15 hold of the datasheet frame with one flipped
    bit. *)
Lemma X15_corrupted_frame_clears_entry_witness :
  let frame := [Z.lxor 0xBE 1; Z.lxor 0xEF 0; Z.lxor 0x92 0;
                Z.lxor 0xBE 0; Z.lxor 0xEF 0; Z.lxor 0x92 0]%Z in
  (∃ r, SHT41.read_sht41 (Returns [0xBE; 0xEF; 0x92; 0xBE; 0xEF; 0x92]%Z) = Returns r) ∧
  SHT41.read_sht41 (Returns frame) = Raises (Exception "ValueError") ∧
  sht41 (fst (worker_mux_shts_iter (sht41_transaction (Returns tt) (Returns frame))
                (λ _, Raises (Exception "off")) latest0)) = None.
Proof.
  assert (Hr : ∃ r, SHT41.read_sht41 (Returns [0xBE; 0xEF; 0x92; 0xBE; 0xEF; 0x92]%Z)
                    = Returns r) by (eexists; vm_compute; reflexivity).
  split; [exact Hr|].
  apply (X15_corrupted_frame_clears_entry 0xBE 0xEF 0x92 0xBE 0xEF 0x92 1 0 0 0 0 0).
  - repeat constructor; unfold is_byte; lia.
  - exact Hr.
  - vm_compute. lia.
  - vm_compute. lia.
  - vm_compute. lia.
Defined.

(** X16: the dust entry that a worker iteration stores from [read_dust]
    has a voltage that is not negative and a density between 0 and 500;
    the CO2 entry stored from a response of bytes, or taken from a last
    valid frame in that range, has a CO2 value between 0 and 65535 and a
    temperature between -40 and 215. *)
Theorem X16_dust_and_co2_entries_in_range :
  (∀ sqrt init_result chan_voltage _bme read_bme l r,
     gp2y (fst (worker_bme_gp2y_iter _bme read_bme
                  (GP2Y1010AU0F.read_dust sqrt init_result chan_voltage) l)) = Some r →
     (0 <= vout r)%Q ∧ (0 <= pm_ugm3 r <= 500)%Q) ∧
  (∀ ser resp last l r,
     Forall is_byte resp →
     (∀ c t raw, last = Some (c, t, raw) →
                 (0 <= c <= 65535)%Z ∧ (-40 <= t <= 215)%Z) →
     mhz19b (fst (worker_mhz_iter ser (MH_Z19B.read_mhz19 (Returns resp)) last l))
     = Some r →
     (0 <= mhz_co2 r <= 65535)%Z ∧ (-40 <= mhz_temp r <= 215)%Z).
Proof.
  split.
  - intros sqrt init chan b rb l r.
    unfold worker_bme_gp2y_iter, gp2y_step.
    destruct (bme_step b rb l) as [l1 p1].
    destruct (GP2Y1010AU0F.read_dust sqrt init chan) as [[v ug]|e] eqn:E; [|done].
    cbn. intros [= <-]. cbn.
    apply read_dust_range in E as [Hv Hug].
    split; [by apply (py_round_int_ge _ 5 0)|by apply (py_round_int_bounds _ 1 0 500)].
  - intros ser resp last l r Hbytes Hlast.
    assert (Hread : ∀ c t raw,
              MH_Z19B.read_mhz19 (Returns resp) = Returns (Some (c, t, raw)) →
              (0 <= c <= 65535)%Z ∧ (-40 <= t <= 215)%Z).
    { intros c t raw. unfold MH_Z19B.read_mhz19, obind.
      destruct (_ || _); [done|]. intros [= <- <- _].
      pose proof (nth_is_byte resp 2 Hbytes). pose proof (nth_is_byte resp 3 Hbytes).
      pose proof (nth_is_byte resp 4 Hbytes). unfold is_byte in *. lia. }
    unfold worker_mhz_iter.
    destruct ser as [s|].
    + destruct (MH_Z19B.read_mhz19 (Returns resp)) as [[[[c t] raw]|]|e] eqn:E.
      * cbn. intros [= <-]. cbn. by apply (Hread c t raw).
      * destruct last as [[[c t] raw]|]; cbn; [|done].
        intros [= <-]. cbn. by apply (Hlast c t raw).
      * done.
    + destruct last as [[[c t] raw]|]; cbn; [|done].
      intros [= <-]. cbn. by apply (Hlast c t raw).
Qed.

(** ** The reductions *)

Lemma py_len_cons {A} (x : A) (l : list A) : (py_len (x :: l) == py_len l + 1)%Q.
Proof.
  unfold py_len. cbn [length]. rewrite Nat2Z.inj_succ, <- Z.add_1_r.
  by rewrite inject_Z_plus.
Qed.



Lemma sorted_Forall (P : Q → Prop) (values : list Q) :
  Forall P values → Forall P (sorted values).
Proof.
  intros H. eapply Permutation_Forall; [|exact H].
  symmetry. apply sorted_perm.
Qed.



Lemma statistics_median_Some (values : list Q) :
  values ≠ [] → is_Some (statistics_median values).
Proof.
  intros Hne. unfold statistics_median. rewrite sorted_length.
  destruct values as [|x l]; [done|]. cbn [length Nat.eqb].
  by destruct (_ =? 1).
Qed.

(** The trimmed mean is the rounded mean of a non-empty part of the sorted
    window, or of the window itself. *)
Lemma trimmed_mean_of_part (values : list Q) :
  values ≠ [] →
  ∃ part, part ≠ [] ∧ _trimmed_mean_safe values = Some (plain_mean part) ∧
          ∀ P : Q → Prop, Forall P values → Forall P part.
Proof.
  intros Hne.
  destruct (le_lt_dec 5 (length values)) as [H5|H5];
    [destruct (Nat.eq_dec (length values / 10) 0) as [Hk|Hk]|].
  - exists values. split; [done|]. split; [|done].
    destruct values as [|x l]; [done|].
    unfold _trimmed_mean_safe, _trimmed_mean_safe_frac.
    destruct (Nat.ltb_spec (length (x :: l)) MIN_SAMPLES_FOR_TRIM) as [|_];
      [reflexivity|].
    by rewrite py_int_len_tenth, Hk.
  - destruct (trimmed_mean_trims values H5 Hk) as [Hmid Htm].
    eexists. split; [exact Hmid|]. split; [exact Htm|].
    intros P HP. by apply Forall_drop, Forall_take, sorted_Forall.
  - exists values. split; [done|]. split; [|done].
    destruct values as [|x l]; [done|].
    unfold _trimmed_mean_safe, _trimmed_mean_safe_frac.
    destruct (Nat.ltb_spec (length (x :: l)) MIN_SAMPLES_FOR_TRIM) as [|Hge];
      [reflexivity|].
    unfold MIN_SAMPLES_FOR_TRIM in Hge. lia.
Qed.




Lemma mean_safe_Some (values : list Q) : is_Some (_mean_safe values) ↔ values ≠ [].
Proof. destruct values; split; (done || by intros [? ?] || eauto). Qed.

Lemma median_safe_Some (values : list Q) : is_Some (_median_safe values) ↔ values ≠ [].
Proof.
  split.
  - destruct values; [by intros [? ?]|done].
  - intros Hne. destruct (statistics_median_Some values Hne) as [m Hm].
    unfold _median_safe. rewrite Hm. destruct values; [done|eauto].
Qed.

Lemma trimmed_mean_safe_Some (values : list Q) :
  is_Some (_trimmed_mean_safe values) ↔ values ≠ [].
Proof.
  split.
  - destruct values; [by intros [? ?]|done].
  - intros Hne. destruct (trimmed_mean_of_part values Hne) as (part & _ & Htm & _).
    rewrite Htm. eauto.
Qed.

Lemma slot_aggr_Some (slots : gmap nat deque) (i : nat) :
  is_Some (slot_aggr slots i) ↔ MIN_REQUIRED K_slot ≤ length (slots !!! i).
Proof.
  unfold slot_aggr. rewrite vals_length.
  destruct (Nat.leb_spec (MIN_REQUIRED K_slot) (length (slots !!! i))) as [Hle|Hlt].
  - rewrite mean_safe_Some. split; [done|]. intros _ E.
    apply (f_equal length) in E. rewrite vals_length in E. cbn in *. lia.
  - split; [by intros [? ?]|lia].
Qed.

(** X18: the gate is exact: in a publish cycle the aggregate of a metric is
    available if and only if its window holds at least the minimum number
    of samples (2 per slot, 2 for CO2, 5 for dust, 2 for pressure). *)
Theorem X18_aggregate_available_iff_enough_samples (b : Buf) :
  let a := aggregate b in
  (∀ i, i < 4 →
        ∃ x, agg_temp_slots a !! i = Some x ∧
             (is_Some x ↔ 2 ≤ length (buf_temp_slots b !!! i))) ∧
  (∀ i, i < 4 →
        ∃ x, agg_rh_slots a !! i = Some x ∧
             (is_Some x ↔ 2 ≤ length (buf_rh_slots b !!! i))) ∧
  (is_Some (co2_aggr a) ↔ 2 ≤ length (buf_co2 b)) ∧
  (is_Some (pm25_aggr a) ↔ 5 ≤ length (buf_pm25 b)) ∧
  (is_Some (pres_aggr a) ↔ 2 ≤ length (buf_bme_pres b)).
Proof.
  cbv zeta. unfold aggregate.
  cbn [agg_temp_slots agg_rh_slots co2_aggr pm25_aggr pres_aggr].
  split; [|split; [|split; [|split]]].
  - intros i Hi. eexists. split; [by apply slots_aggr_lookup|].
    apply slot_aggr_Some.
  - intros i Hi. eexists. split; [by apply slots_aggr_lookup|].
    apply slot_aggr_Some.
  - rewrite vals_length.
    destruct (Nat.leb_spec (MIN_REQUIRED K_co2) (length (buf_co2 b))) as [Hle|Hlt];
      cbn in *.
    + rewrite median_safe_Some. split; [done|]. intros _ E.
      apply (f_equal length) in E. rewrite vals_length in E. cbn in *. lia.
    + split; [by intros [? ?]|lia].
  - rewrite vals_length.
    destruct (Nat.leb_spec (MIN_REQUIRED K_pm25) (length (buf_pm25 b))) as [Hle|Hlt];
      cbn in *.
    + rewrite trimmed_mean_safe_Some. split; [done|]. intros _ E.
      apply (f_equal length) in E. rewrite vals_length in E. cbn in *. lia.
    + split; [by intros [? ?]|lia].
  - rewrite vals_length.
    destruct (Nat.leb_spec (MIN_REQUIRED K_pres) (length (buf_bme_pres b)))
      as [Hle|Hlt]; cbn in *.
    + rewrite mean_safe_Some. split; [done|]. intros _ E.
      apply (f_equal length) in E. rewrite vals_length in E. cbn in *. lia.
    + split; [by intros [? ?]|lia].
Qed.

(** ** Pruning twice *)

Lemma popleft_while_twice c1 c2 (d : deque) :
  (c1 <= c2)%Q → popleft_while c2 (popleft_while c1 d) = popleft_while c2 d.
Proof.
  intros Hle. induction d as [|[t v] d IH]; [done|]. cbn [popleft_while].
  destruct (Qltb t c1) eqn:E1.
  - apply Qltb_lt in E1.
    replace (Qltb t c2) with true; [done|].
    symmetry. apply Qltb_lt. lra.
  - reflexivity.
Qed.

(** X19: pruning at a later time makes the earlier pruning redundant:
    [prune(now2)] after [prune(now1)] with [now1 <= now2] leaves the
    buffer that [prune(now2)] alone leaves; pruning twice at the same time
    changes nothing more. *)
Theorem X19_prune_later_absorbs_earlier (now1 now2 : Q) (b : Buf) :
  (now1 <= now2)%Q →
  _prune_now now2 (_prune_now now1 b) = _prune_now now2 b.
Proof.
  intros Hle.
  assert (Hc : (now1 - BUF_WINDOW_S <= now2 - BUF_WINDOW_S)%Q) by lra.
  unfold _prune_now.
  cbn [buf_temp_slots buf_rh_slots buf_bme_temp buf_bme_rh buf_bme_pres
       buf_co2 buf_pm25].
  rewrite <- !map_fmap_compose.
  rewrite !(popleft_while_twice _ _ _ Hc).
  f_equal; apply map_fmap_ext; intros i d _; cbn; by apply popleft_while_twice.
Qed.

(** The hypothesis of X19 holds of two prunings one second apart. *)
Lemma X19_prune_later_absorbs_earlier_witness :
  let b := set_flat co2 (λ _, [(0, 500); (95, 400)]%Q) buf0 in
  (100 <= 101)%Q ∧ _prune_now 101 (_prune_now 100 b) = _prune_now 101 b.
Proof.
  split; [discriminate|].
  apply (X19_prune_later_absorbs_earlier 100 101). discriminate.
Defined.

(** ** The publisher over a whole run *)

Lemma publications_idle ticks start :
  Forall (λ inp, gives_sample inp = false) ticks →
  publications ticks (pub_state0 start) = [].
Proof.
  induction 1 as [|inp rest Hinp Hrest IH]; [done|].
  cbn [publications]. by rewrite (tick_update_idle _ _ Hinp).
Qed.

(** X20: as long as no snapshot carries an SHTC3 reading on the channels 2
    to 5, a BME280, a CO2 or a dust entry, the publisher has no publish
    cycle and hands nothing to the MQTT client, however long it runs and
    whatever the SHT41 entry holds. *)
Theorem X20_nothing_published_without_samples (TOPICS_PUB : list (string * Z))
    (BROKER_HOST : string) (BROKER_PORT : Z) (period_s start : Q)
    (ticks : list tick_input) :
  Forall (λ inp, gives_sample inp = false) ticks →
  publications ticks (pub_state0 start) = [] ∧
  client_publishes
    (fst (publisher TOPICS_PUB BROKER_HOST BROKER_PORT period_s
            (Returns tt) start ticks)) = [].
Proof.
  intros Hidle. pose proof (publications_idle ticks start Hidle) as Hp.
  split; [exact Hp|].
  destruct (publisher_connected_runs TOPICS_PUB BROKER_HOST BROKER_PORT period_s
              start ticks) as (tr & Hrun & _ & Hpub).
  rewrite Hrun. cbn [fst]. by rewrite Hpub, Hp.
Qed.

(** The hypothesis of X20 holds of a run whose snapshots only carry an
    SHT41 reading. *)
Lemma X20_nothing_published_without_samples_witness :
  let snap := set_sht41 (Some {| temp_c := 21; rh := 40 |}) latest0 in
  let tick t := {| now := t; snap := snap; publish_result := λ _, Returns tt |} in
  let ticks := [tick 0; tick 11; tick 22]%Q in
  Forall (λ inp, gives_sample inp = false) ticks ∧
  publications ticks (pub_state0 0) = [] ∧
  client_publishes
    (fst (publisher [("hvac/sensor", 0%Z)] "localhost" 1883 1
            (Returns tt) 0 ticks)) = [].
Proof.
  intros snap tick ticks.
  assert (H : Forall (λ inp, gives_sample inp = false) ticks)
    by (repeat constructor).
  split; [exact H|].
  exact (X20_nothing_published_without_samples [("hvac/sensor", 0%Z)]
           "localhost" 1883 1 0 ticks H).
Defined.

(** X21: with a clock that never runs backwards, after every iteration
    every sequence of the window buffer is in timestamp order and holds
    only samples taken within the last 10 seconds, none from the future;
    a payload is built from these samples alone. *)
Theorem X21_window_holds_last_ten_seconds (ticks : list tick_input)
    (inp : tick_input) (start : Q) :
  clock_monotone (ticks ++ [inp]) →
  let st := run_updates (ticks ++ [inp]) (pub_state0 start) in
  (∀ m d, get_seq m (buf st) = Some d →
          time_ordered d ∧
          Forall (λ e, (now inp - BUF_WINDOW_S <= fst e <= now inp)%Q) d) ∧
  (∀ p, snd (tick_update inp (run_updates ticks (pub_state0 start))) = Some p →
        p = shape (aggregate (buf st))).
Proof.
  intros Hmono st. split.
  - intros m d Hd.
    pose proof (publisher_buffer_within_window ticks inp start m d Hmono Hd) as Hlo.
    assert (Hhi : Forall (λ x, (now x <= now inp)%Q) (ticks ++ [inp])).
    { apply StronglySorted_app in Hmono as (Hlast & _ & _).
      apply Forall_app. split.
      - apply Forall_forall. intros x Hx. apply Hlast; [done|]. by left.
      - repeat constructor. apply Qle_refl. }
    destruct (run_updates_ordered _ start (now inp) Hmono Hhi m d Hd) as [Hord Hub].
    split; [exact Hord|].
    rewrite Forall_forall in Hlo, Hub. apply Forall_forall. intros e He.
    split; [by apply Hlo|by apply Hub].
  - intros p Hp. subst st. unfold run_updates. rewrite fold_left_app.
    cbn [fold_left]. fold (run_updates ticks (pub_state0 start)).
    apply (tick_update_payload inp (run_updates ticks (pub_state0 start))).
    destruct (tick_update inp _) as [st' msg]. cbn in *. by subst.
Qed.

(** The hypothesis of X21 holds of three iterations 6 seconds apart. *)
Lemma X21_window_holds_last_ten_seconds_witness :
  let snap := set_mhz19b (Some {| mhz_co2 := 400; mhz_temp := 21 |}) latest0 in
  let tick t := {| now := t; snap := snap; publish_result := λ _, Returns tt |} in
  let st := run_updates ([tick 0; tick 6] ++ [tick 12])%Q (pub_state0 0) in
  clock_monotone ([tick 0; tick 6] ++ [tick 12])%Q ∧
  ∀ m d, get_seq m (buf st) = Some d →
         time_ordered d ∧
         Forall (λ e, (12 - BUF_WINDOW_S <= fst e <= 12)%Q) d.
Proof.
  intros snap tick st.
  assert (Hmono : clock_monotone ([tick 0; tick 6] ++ [tick 12])%Q).
  { unfold clock_monotone. cbn [app].
    repeat (apply SSorted_cons || apply SSorted_nil || apply List.Forall_cons
            || apply List.Forall_nil); discriminate. }
  split; [exact Hmono|].
  exact (proj1 (X21_window_holds_last_ten_seconds [tick 0; tick 6]%Q (tick 12%Q) 0 Hmono)).
Defined.

Lemma push_channel_slot_iff ts s3 b cs key slot :
  is_Some (get_slots key (push_channel ts s3 b cs) !! slot)
  ↔ is_Some (get_slots key b !! slot).
Proof.
  destruct cs as [c s]. unfold push_channel.
  destruct (s3 !! c) as [[e|]|]; [|done..].
  destruct key; cbn; rewrite lookup_alter; case_decide; subst; try done;
    by rewrite fmap_is_Some.
Qed.

Lemma tick_update_slot_iff inp st key slot :
  is_Some (get_slots key (buf (fst (tick_update inp st))) !! slot)
  ↔ is_Some (get_slots key (buf st) !! slot).
Proof.
  rewrite tick_update_buf.
  assert (Hprune : ∀ b, is_Some (get_slots key (_prune_now (now inp) b) !! slot)
                        ↔ is_Some (get_slots key b !! slot)).
  { intros b. destruct key; cbn; by rewrite lookup_fmap, fmap_is_Some. }
  rewrite Hprune.
  assert (Hsnap : ∀ b, get_slots key (push_snapshot (now inp) (snap inp) b)
                       = get_slots key (push_shtc3 (now inp) (shtc3 (snap inp)) b)).
  { intros b. unfold push_snapshot.
    by destruct (bme280 (snap inp)), (mhz19b (snap inp)), (gp2y (snap inp)), key. }
  rewrite Hsnap. unfold push_shtc3. generalize ch_to_slot as cs.
  generalize (buf st) as b. intros b cs. revert b.
  induction cs as [|c cs IH]; intros b; [done|].
  cbn [fold_left]. by rewrite IH, push_channel_slot_iff.
Qed.

(** X22: in every state the publisher reaches, both slot dictionaries of
    the buffer have exactly the keys 0, 1, 2 and 3: no slot is ever lost,
    so [buf[key][slot]] finds its deque, and none is added. *)
Theorem X22_slot_keys_never_change (ticks : list tick_input) (start : Q)
    (key : slot_key) (slot : nat) :
  is_Some (get_slots key (buf (run_updates ticks (pub_state0 start))) !! slot)
  ↔ slot < 4.
Proof.
  assert (H0 : is_Some (get_slots key (buf (pub_state0 start)) !! slot) ↔ slot < 4).
  { destruct key; cbn.
    all: destruct (le_lt_dec 4 slot) as [Hge|Hlt];
      [do 4 (destruct slot as [|slot]; [lia|]);
       unfold empty_slots; rewrite !lookup_insert_ne, lookup_empty by lia;
       split; [by intros [? ?]|lia]
      |rewrite (empty_slots_present _ Hlt); split; [done|eauto]]. }
  revert H0. generalize (pub_state0 start) as st.
  induction ticks as [|inp rest IH]; intros st H0; [done|].
  cbn [run_updates fold_left]. apply IH. by rewrite tick_update_slot_iff.
Qed.

(** X23: the variable [first_window_start] is unset until the first
    iteration whose snapshot carries a sample, and from then on it holds
    the clock reading of that iteration. *)
Theorem X23_first_window_start_is_first_sample (ticks : list tick_input) (start : Q) :
  first_window_start (run_updates ticks (pub_state0 start))
  = first_sample_time ticks.
Proof. apply first_window_start_is_first_sample. Qed.

Lemma publish_all_no_connect mqtt (msg : Payload) (res : nat → outcome unit)
    (topics : list (string * Z)) (i : nat) :
  client_connects (fst (publish_all mqtt msg res i topics)) = 0.
Proof.
  revert i. induction topics as [|[topic qos] rest IH]; intros i; [done|].
  destruct (publish_all_spec mqtt msg res rest (S i)) as (tr & Hrun & _).
  specialize (IH (S i)). rewrite Hrun in IH. cbn [fst] in IH.
  cbn [publish_all]. rewrite Hrun, MQTTClient_publish_trace.
  unfold client_connects in *. by destruct (res i) as [[]|e]; cbn.
Qed.

Lemma publisher_loop_no_connect TOPICS_PUB period_s mqtt
    (ticks : list tick_input) (st : pub_state) :
  client_connects (fst (publisher_loop TOPICS_PUB period_s mqtt ticks st)) = 0.
Proof.
  revert st. induction ticks as [|inp rest IH]; intros st; [done|].
  cbn [publisher_loop]. unfold publisher_tick.
  destruct (tick_update inp st) as [st1 msg].
  destruct (tick_emit_spec TOPICS_PUB period_s mqtt inp msg) as (tr1 & Hrun1 & _).
  assert (Hc1 : client_connects tr1 = 0).
  { destruct msg as [m|]; cbn [tick_emit] in Hrun1.
    - pose proof (publish_all_no_connect mqtt m (publish_result inp) TOPICS_PUB 0) as Hc.
      destruct (publish_all_spec mqtt m (publish_result inp) TOPICS_PUB 0)
        as (tr0 & Hrun0 & _).
      rewrite Hrun0 in Hc, Hrun1. cbn in Hc, Hrun1. injection Hrun1 as <-.
      unfold client_connects in *. by rewrite !flat_map_app, !length_app, Hc.
    - by injection Hrun1 as <-. }
  destruct (publisher_loop_spec TOPICS_PUB period_s mqtt rest st1)
    as (tr2 & st2 & Hrun2 & _).
  specialize (IH st1). rewrite Hrun2 in IH. cbn [fst] in IH.
  rewrite Hrun1. cbn. rewrite Hrun2. cbn.
  unfold client_connects in *. by rewrite !flat_map_app, !length_app, Hc1, IH.
Qed.

(** X24: after a successful connect the publisher runs every iteration,
    and the calls that reach the MQTT client are one connect and then
    exactly those of the publish cycles: for each cycle, in order, one call
    per configured destination with its topic, the payload of the cycle
    and its QoS. *)
Theorem X24_client_calls_are_the_publish_cycles (TOPICS_PUB : list (string * Z))
    (BROKER_HOST : string) (BROKER_PORT : Z) (period_s start : Q)
    (ticks : list tick_input) :
  ∃ tr, publisher TOPICS_PUB BROKER_HOST BROKER_PORT period_s
          (Returns tt) start ticks = (tr, Returns tt) ∧
    client_connects tr = 1 ∧
    sleeps tr = length ticks ∧
    client_publishes tr
    = flat_map (λ '(_, msg), map (λ '(topic, qos), (topic, msg, qos)) TOPICS_PUB)
        (publications ticks (pub_state0 start)).
Proof.
  unfold publisher.
  pose proof (publisher_loop_no_connect TOPICS_PUB period_s
                (MQTTClient_init BROKER_HOST BROKER_PORT TOPICS_PUB) ticks
                (pub_state0 start)) as Hconn.
  destruct (publisher_loop_spec TOPICS_PUB period_s
              (MQTTClient_init BROKER_HOST BROKER_PORT TOPICS_PUB) ticks
              (pub_state0 start)) as (tr & st' & Hrun & Hsl & Hpub).
  rewrite Hrun in Hconn. cbn [fst] in Hconn.
  unfold pub_state0 in Hrun. cbn. rewrite Hrun. cbn.
  eexists. split; [reflexivity|].
  unfold sleeps, client_publishes, client_connects in *. cbn.
  rewrite !flat_map_app, !length_app, Hsl, Hpub, Hconn. cbn.
  split; [lia|]. split; [lia|]. by rewrite app_nil_r.
Qed.
(** ** When a cycle publishes *)

Lemma last_default {A} (a d d' : A) (l : list A) :
  List.last (a :: l) d = List.last (a :: l) d'.
Proof.
  revert a. induction l as [|b l IH]; intros a; [done|].
  change (List.last (b :: l) d = List.last (b :: l) d'). apply IH.
Qed.

Lemma last_cons {A} (a d : A) (l : list A) : List.last (a :: l) d = List.last l a.
Proof. destruct l as [|b l]; [done|]. apply (last_default b d a l). Qed.

Lemma run_updates_snoc ticks inp st :
  run_updates (ticks ++ [inp]) st = fst (tick_update inp (run_updates ticks st)).
Proof. unfold run_updates. by rewrite fold_left_app. Qed.

Lemma publications_snoc ticks inp st :
  publications (ticks ++ [inp]) st
  = publications ticks st ++
    match snd (tick_update inp (run_updates ticks st)) with
    | Some p => [(now inp, p)]
    | None => []
    end.
Proof.
  revert st. induction ticks as [|x rest IH]; intros st.
  - cbn. by destruct (tick_update inp st) as [st' [p|]].
  - cbn [app publications run_updates fold_left].
    fold (run_updates rest (fst (tick_update x st))).
    specialize (IH (fst (tick_update x st))).
    destruct (tick_update x st) as [st' [p|]]; cbn [fst] in *; by rewrite IH.
Qed.

(** [t0] holds the clock reading of the last publish cycle. *)
Lemma t0_is_last_publish ticks st :
  t0 (run_updates ticks st) = List.last (map fst (publications ticks st)) (t0 st).
Proof.
  revert st. induction ticks as [|inp rest IH]; intros st; [done|].
  cbn [run_updates fold_left publications].
  fold (run_updates rest (fst (tick_update inp st))).
  pose proof (tick_update_cases inp st) as [_ Hpub].
  specialize (IH (fst (tick_update inp st))).
  destruct (tick_update inp st) as [st' [p|]]; cbn [fst snd map] in *.
  - rewrite last_cons, IH. destruct Hpub as (Ht0 & _). by rewrite Ht0.
  - by rewrite IH, Hpub.
Qed.

Lemma tick_update_due inp st :
  snd (tick_update inp st)
  = if publish_due (now inp) (first_window_start (fst (tick_update inp st))) (t0 st)
    then Some (shape (aggregate (buf (fst (tick_update inp st)))))
    else None.
Proof.
  unfold tick_update.
  destruct (publish_due _ _ _) eqn:E; cbn [fst snd first_window_start buf];
    by rewrite E.
Qed.

Lemma publish_due_spec now fws t :
  publish_due now fws t = true
  ↔ ∃ f, fws = Some f ∧ (f + BUF_WINDOW_S <= now)%Q ∧ (t + BUF_WINDOW_S <= now)%Q.
Proof.
  unfold publish_due. destruct fws as [f|].
  - rewrite andb_true_iff, !Qle_bool_iff. split.
    + intros [Ht Hf]. exists f. split; [done|]. split; lra.
    + intros (f' & [= <-] & Hf & Ht). split; lra.
  - split; [done|]. by intros (f & ? & _).
Qed.

(** X25: the publisher publishes in an iteration exactly when a first
    sample has been seen at least 10 seconds before it (this iteration
    included in the search) and the last publish cycle, or the entry into
    the loop when there was none, lies at least 10 seconds back; the
    payload is then built from the buffer as this iteration leaves it. *)
Theorem X25_publishes_exactly_when_due (ticks : list tick_input)
    (inp : tick_input) (start : Q) :
  let st0 := pub_state0 start in
  let due :=
    ∃ f, first_sample_time (ticks ++ [inp]) = Some f ∧
         (f + BUF_WINDOW_S <= now inp)%Q ∧
         (last_publish_time start ticks + BUF_WINDOW_S <= now inp)%Q in
  (due ∧
   publications (ticks ++ [inp]) st0
   = publications ticks st0 ++
     [(now inp, shape (aggregate (buf (run_updates (ticks ++ [inp]) st0))))])
  ∨ (¬ due ∧ publications (ticks ++ [inp]) st0 = publications ticks st0).
Proof.
  intros st0 due.
  assert (Hdue : publish_due (now inp)
                   (first_window_start (run_updates (ticks ++ [inp]) st0))
                   (t0 (run_updates ticks st0)) = true ↔ due).
  { rewrite publish_due_spec. subst due st0.
    rewrite first_window_start_is_first_sample, t0_is_last_publish. done. }
  rewrite publications_snoc, tick_update_due, <- run_updates_snoc.
  destruct (publish_due _ _ _).
  - left. split; [by apply Hdue|done].
  - right. split; [|by rewrite app_nil_r].
    intros H. by apply Hdue in H.
Qed.

(** ** The window buffer as a function of the run *)

Lemma filter_all {A} (f : A → bool) (l : list A) :
  Forall (λ x, f x = true) l → List.filter f l = l.
Proof.
  induction 1 as [|x l Hx _ IH]; [done|]. cbn. by rewrite Hx, IH.
Qed.

(** On a sequence in timestamp order, dropping from the left while the
    head is too old keeps exactly the entries that are not too old. *)
Lemma popleft_while_filter cutoff (d : deque) :
  time_ordered d →
  popleft_while cutoff d = List.filter (λ e : Q * Q, Qle_bool cutoff (fst e)) d.
Proof.
  induction d as [|[ts v] d IH]; intros Hs; [done|].
  cbn [popleft_while List.filter fst]. unfold Qltb.
  destruct (Qle_bool cutoff ts) eqn:E; cbn [negb].
  - f_equal. symmetry. apply filter_all.
    eapply Forall_impl; [by apply time_ordered_above|].
    intros x Hx. cbn in Hx. apply Qle_bool_iff. apply Qle_bool_iff in E.
    by apply Qle_trans with ts.
  - apply IH. by inversion Hs.
Qed.

Lemma get_seq_buf0 m d : get_seq m buf0 = Some d → d = [].
Proof.
  destruct m as [key slot|key]; cbn.
  - assert (Hs : empty_slots !! slot = Some d → d = []).
    { do 4 (destruct slot as [|slot]; [by intros [= <-]|]).
      unfold empty_slots. rewrite !lookup_insert_ne by lia.
      by rewrite lookup_empty. }
    by destruct key.
  - by destruct key; intros [= <-].
Qed.

Lemma push_channel_flat ts s3 b cs key :
  get_flat key (push_channel ts s3 b cs) = get_flat key b.
Proof.
  destruct cs as [c s]. unfold push_channel.
  by destruct (s3 !! c) as [[e|]|], key.
Qed.

Lemma push_shtc3_flat ts s3 b key :
  get_flat key (push_shtc3 ts s3 b) = get_flat key b.
Proof.
  unfold push_shtc3. generalize ch_to_slot as cs. intros cs. revert b.
  induction cs as [|c cs IH]; intros b; [done|].
  cbn [fold_left]. by rewrite IH, push_channel_flat.
Qed.

Lemma push_channel_slot ts s3 b ch s key slot :
  get_slots key (push_channel ts s3 b (ch, s)) !! slot
  = (λ d : deque,
       d ++ if decide (s = slot)
            then match s3 !! ch with
                 | Some (Some e) => [(ts, th_field key e)]
                 | _ => []
                 end
            else []) <$> get_slots key b !! slot.
Proof.
  unfold push_channel.
  destruct (s3 !! ch) as [[e|]|].
  - destruct key; cbn; rewrite lookup_alter; case_decide; subst;
      destruct (_ !! slot) as [d|]; cbn; by rewrite ?app_nil_r.
  - destruct (_ !! slot) as [d|]; cbn; [|done]. case_decide; by rewrite app_nil_r.
  - destruct (_ !! slot) as [d|]; cbn; [|done]. case_decide; by rewrite app_nil_r.
Qed.

(** What loading a snapshot does to one sequence of the buffer. *)
Lemma get_seq_push_snapshot m ts l b :
  get_seq m (push_snapshot ts l b)
  = (λ d : deque,
       d ++ match sample_of m l with Some v => [(ts, v)] | None => [] end)
    <$> get_seq m b.
Proof.
  destruct m as [key slot|key].
  - cbn [get_seq].
    assert (Hsnap : get_slots key (push_snapshot ts l b)
                    = get_slots key (push_shtc3 ts (shtc3 l) b)).
    { unfold push_snapshot. by destruct (bme280 l), (mhz19b l), (gp2y l), key. }
    rewrite Hsnap. unfold push_shtc3, ch_to_slot. cbn [fold_left].
    rewrite !push_channel_slot.
    destruct (get_slots key b !! slot) as [d|]; cbn [fmap option_fmap option_map];
      [|done].
    f_equal. rewrite <- !app_assoc. f_equal.
    unfold sample_of.
    repeat case_decide; subst; try lia; cbn [app Nat.ltb Nat.leb Nat.add].
    1-4: destruct (shtc3 l !! _) as [[e|]|]; by rewrite ?app_nil_r.
    destruct (Nat.leb_spec slot 3); [lia|done].
  - cbn [get_seq fmap option_fmap option_map]. f_equal.
    rewrite <- (push_shtc3_flat ts (shtc3 l) b key).
    unfold push_snapshot. generalize (push_shtc3 ts (shtc3 l) b) as b1. intros b1.
    destruct key; cbn [sample_of];
      destruct (bme280 l) as [r|], (mhz19b l) as [mh|], (gp2y l) as [gp|];
      cbn; by rewrite ?app_nil_r.
Qed.

Lemma monotone_snoc_bound ticks inp :
  clock_monotone (ticks ++ [inp]) →
  clock_monotone ticks ∧ Forall (λ x, (now x <= now inp)%Q) ticks.
Proof.
  intros Hmono. apply StronglySorted_app in Hmono as (Hlast & Hmono & _).
  split; [done|]. apply Forall_forall. intros x Hx. apply Hlast; [done|]. by left.
Qed.

(** Pruning the buffer of a run at any cutoff that is not below the
    cutoffs already applied leaves the samples of the run from that cutoff
    on. *)
Lemma run_updates_window m ticks start c d :
  clock_monotone ticks →
  Forall (λ x, (now x - BUF_WINDOW_S <= c)%Q) ticks →
  get_seq m (buf (run_updates ticks (pub_state0 start))) = Some d →
  popleft_while c d = window_of m ticks c.
Proof.
  revert c d. induction ticks as [|inp ticks IH] using rev_ind;
    intros c d Hmono Hc Hd.
  - by apply get_seq_buf0 in Hd as ->.
  - apply monotone_snoc_bound in Hmono as [Hmono Hle].
    apply Forall_app in Hc as [Hc Hinp]. rewrite Forall_singleton in Hinp.
    rewrite run_updates_snoc, tick_update_buf, get_seq_prune,
      get_seq_push_snapshot in Hd.
    set (st := run_updates ticks (pub_state0 start)) in *.
    assert (Hb : buf_ordered (now inp) (buf st))
      by (by apply run_updates_ordered).
    destruct (get_seq m (buf st)) as [d0|] eqn:E; [|done].
    cbn in Hd. injection Hd as <-.
    fold (tick_sample m inp).
    assert (Hord : time_ordered (d0 ++ tick_sample m inp)).
    { apply (buf_ordered_push_snapshot (now inp) (snap inp) _ Hb m).
      by rewrite get_seq_push_snapshot, E. }
    rewrite popleft_while_twice by done.
    rewrite popleft_while_filter by done.
    rewrite List.filter_app.
    rewrite <- popleft_while_filter by (by apply (Hb m)).
    rewrite (IH c d0) by done.
    unfold window_of, history. rewrite flat_map_app, List.filter_app.
    cbn [flat_map]. by rewrite app_nil_r.
Qed.

(** X26: with a clock that never runs backwards, after every iteration
    each sequence of the window buffer holds exactly the samples that the
    snapshots of the run contributed to its metric in the last 10 seconds,
    this iteration included, oldest first. *)
Theorem X26_buffer_is_the_last_window (ticks : list tick_input)
    (inp : tick_input) (start : Q) :
  clock_monotone (ticks ++ [inp]) →
  let b := buf (run_updates (ticks ++ [inp]) (pub_state0 start)) in
  let cutoff := (now inp - BUF_WINDOW_S)%Q in
  (∀ key, get_flat key b = window_of (FlatSeq key) (ticks ++ [inp]) cutoff) ∧
  (∀ key slot, slot < 4 →
     get_slots key b !! slot
     = Some (window_of (SlotSeq key slot) (ticks ++ [inp]) cutoff)).
Proof.
  intros Hmono b cutoff.
  assert (Hall : ∀ m d, get_seq m b = Some d →
                        d = window_of m (ticks ++ [inp]) cutoff).
  { intros m d Hd.
    assert (Hc : Forall (λ x, (now x - BUF_WINDOW_S <= cutoff)%Q) (ticks ++ [inp])).
    { destruct (monotone_snoc_bound _ _ Hmono) as [_ Hle].
      subst cutoff. apply Forall_app. split.
      - eapply Forall_impl; [exact Hle|]. intros x Hx. cbn in Hx. lra.
      - repeat constructor. apply Qle_refl. }
    rewrite <- (run_updates_window m _ start cutoff d Hmono Hc Hd).
    subst b. rewrite run_updates_snoc, tick_update_buf, get_seq_prune in Hd.
    destruct (get_seq m _) as [d0|]; [|done]. cbn in Hd. injection Hd as <-.
    fold cutoff. symmetry. apply popleft_while_twice, Qle_refl. }
  split.
  - intros key. by apply (Hall (FlatSeq key)).
  - intros key slot Hslot.
    destruct (publisher_slots_present (ticks ++ [inp]) start key slot Hslot)
      as [d Hd].
    fold b in Hd. rewrite Hd. f_equal. by apply (Hall (SlotSeq key slot)).
Qed.

(** The hypothesis of X26 holds of three iterations 6 seconds apart with a
    CO2 reading each: the first one has left the window at the third. *)
Lemma X26_buffer_is_the_last_window_witness :
  let rd c := set_mhz19b (Some {| mhz_co2 := c; mhz_temp := 21 |}) latest0 in
  let tick t c := {| now := t; snap := rd c; publish_result := λ _, Returns tt |} in
  let ticks := [tick 0%Q 400%Z; tick 6%Q 410%Z] in
  let inp := tick 12%Q 420%Z in
  clock_monotone (ticks ++ [inp]) ∧
  buf_co2 (buf (run_updates (ticks ++ [inp]) (pub_state0 0)))
  = window_of (FlatSeq co2) (ticks ++ [inp]) (12 - BUF_WINDOW_S).
Proof.
  intros rd tick ticks inp.
  assert (Hmono : clock_monotone (ticks ++ [inp])).
  { unfold clock_monotone. cbn [app].
    repeat (apply SSorted_cons || apply SSorted_nil || apply List.Forall_cons
            || apply List.Forall_nil); discriminate. }
  split; [exact Hmono|].
  exact (proj1 (X26_buffer_is_the_last_window ticks inp 0 Hmono) co2).
Defined.
(** ** What the publisher does not read *)

Lemma push_channel_view ts s3 s3' b b' ch s :
  mjoin (s3 !! ch) = mjoin (s3' !! ch) →
  payload_view b = payload_view b' →
  payload_view (push_channel ts s3 b (ch, s))
  = payload_view (push_channel ts s3' b' (ch, s)).
Proof.
  destruct b, b'. unfold payload_view. cbn. intros Hj [= -> -> -> -> ->].
  unfold push_channel.
  destruct (s3 !! ch) as [[e|]|], (s3' !! ch) as [[e'|]|]; cbn in Hj;
    try discriminate; try injection Hj as ->; reflexivity.
Qed.

Lemma push_snapshot_view ts l l' b b' :
  payload_inputs l = payload_inputs l' →
  payload_view b = payload_view b' →
  payload_view (push_snapshot ts l b) = payload_view (push_snapshot ts l' b').
Proof.
  unfold payload_inputs. cbn [map ch_to_slot fst].
  intros [= H2 H3 H4 H5 Hp Hc Hd] Hv.
  assert (Hs : payload_view (push_shtc3 ts (shtc3 l) b)
               = payload_view (push_shtc3 ts (shtc3 l') b')).
  { unfold push_shtc3, ch_to_slot. cbn [fold_left].
    by repeat apply push_channel_view. }
  unfold push_snapshot.
  revert Hs. generalize (push_shtc3 ts (shtc3 l) b) (push_shtc3 ts (shtc3 l') b').
  intros b1 b1'. destruct b1, b1'. unfold payload_view. cbn.
  intros [= -> -> -> -> ->].
  destruct (bme280 l) as [r|], (bme280 l') as [r'|]; try discriminate;
    destruct (mhz19b l) as [mh|], (mhz19b l') as [mh'|]; try discriminate;
    destruct (gp2y l) as [gp|], (gp2y l') as [gp'|]; try discriminate;
    cbn in *; congruence.
Qed.

Lemma prune_view now b b' :
  payload_view b = payload_view b' →
  payload_view (_prune_now now b) = payload_view (_prune_now now b').
Proof.
  destruct b, b'. unfold payload_view. cbn. by intros [= -> -> -> -> ->].
Qed.

Lemma view_determines b b' :
  payload_view b = payload_view b' →
  have_slot b || have_co2 b || have_pm b || have_pres b
  = have_slot b' || have_co2 b' || have_pm b' || have_pres b' ∧
  aggregate b = aggregate b'.
Proof.
  destruct b, b'. unfold payload_view. cbn. by intros [= -> -> -> -> ->].
Qed.

Lemma tick_update_view inp inp' st st' :
  now inp = now inp' →
  payload_inputs (snap inp) = payload_inputs (snap inp') →
  first_window_start st = first_window_start st' → t0 st = t0 st' →
  payload_view (buf st) = payload_view (buf st') →
  snd (tick_update inp st) = snd (tick_update inp' st') ∧
  first_window_start (fst (tick_update inp st))
  = first_window_start (fst (tick_update inp' st')) ∧
  t0 (fst (tick_update inp st)) = t0 (fst (tick_update inp' st')) ∧
  payload_view (buf (fst (tick_update inp st)))
  = payload_view (buf (fst (tick_update inp' st'))).
Proof.
  intros Hnow Hin Hf Ht Hv. unfold tick_update. rewrite <- Hnow, <- Hf, <- Ht.
  pose proof (prune_view (now inp) _ _
                (push_snapshot_view (now inp) _ _ _ _ Hin Hv)) as Hb.
  destruct (view_determines _ _ Hb) as [Hhave Hagg].
  rewrite <- Hhave, <- Hagg.
  by destruct (publish_due _ _ _).
Qed.

Lemma publications_view ticks ticks' st st' :
  Forall2 (λ x y, now x = now y ∧
                  payload_inputs (snap x) = payload_inputs (snap y)) ticks ticks' →
  first_window_start st = first_window_start st' → t0 st = t0 st' →
  payload_view (buf st) = payload_view (buf st') →
  publications ticks st = publications ticks' st'.
Proof.
  intros Hall. revert st st'.
  induction Hall as [|x y ticks ticks' [Hnow Hin] _ IH]; intros st st' Hf Ht Hv;
    [done|].
  cbn [publications].
  destruct (tick_update_view x y st st' Hnow Hin Hf Ht Hv) as (Hm & Hf1 & Ht1 & Hv1).
  specialize (IH _ _ Hf1 Ht1 Hv1).
  destruct (tick_update x st) as [s1 m1], (tick_update y st') as [s2 m2].
  cbn [fst snd] in *. subst m2. rewrite Hnow, IH. done.
Qed.

(** X27: the publish cycles of a run, their times and their payloads,
    depend only on the clock readings and on what the publisher reads of
    each snapshot: the SHTC3 entries of the channels 2 to 5, the pressure,
    the CO2 value and the dust density.  The SHT41 entry, the other SHTC3
    channels, the temperature, humidity and altitude of the BME280, the
    dust sensor's voltage and the temperature of the CO2 sensor never
    reach a payload. *)
Theorem X27_payload_ignores_unread_entries (ticks ticks' : list tick_input)
    (start : Q) :
  Forall2 (λ x y, now x = now y ∧
                  payload_inputs (snap x) = payload_inputs (snap y)) ticks ticks' →
  publications ticks (pub_state0 start) = publications ticks' (pub_state0 start).
Proof. intros Hall. by apply publications_view. Qed.

(** The hypothesis of X27 holds of two runs that differ in the SHT41 entry
    and in the temperature of the BME280 and of the CO2 sensor. *)
Lemma X27_payload_ignores_unread_entries_witness :
  let rd t41 tb tc :=
    set_sht41 (Some {| temp_c := t41; rh := 40 |})
      (set_bme280 (Some {| bme_temp_c := tb; bme_rh_pct := 35;
                           press_hpa := 1013; alt_m := 12 |})
         (set_mhz19b (Some {| mhz_co2 := 400; mhz_temp := tc |}) latest0)) in
  let tick t l := {| now := t; snap := l; publish_result := λ _, Returns tt |} in
  let ticks := [tick 0%Q (rd 21%Q 22%Q 23%Z); tick 11%Q (rd 21%Q 22%Q 23%Z)] in
  let ticks' := [tick 0%Q (rd 30%Q 31%Q 32%Z); tick 11%Q (rd 33%Q 34%Q 35%Z)] in
  Forall2 (λ x y, now x = now y ∧
                  payload_inputs (snap x) = payload_inputs (snap y)) ticks ticks' ∧
  publications ticks (pub_state0 0) = publications ticks' (pub_state0 0).
Proof.
  intros rd tick ticks ticks'.
  assert (H : Forall2 (λ x y, now x = now y ∧
                payload_inputs (snap x) = payload_inputs (snap y)) ticks ticks').
  { repeat constructor. }
  split; [exact H|].
  exact (X27_payload_ignores_unread_entries ticks ticks' 0 H).
Defined.
(** ** Published numbers stay within the bounds of the readings *)













(** ** A saturated dust signal *)

Lemma py_max_ge_r a b : (b <= GP2Y1010AU0F.py_max a b)%Q.
Proof.
  unfold GP2Y1010AU0F.py_max. destruct (Qltb a b) eqn:E; [apply Qle_refl|].
  by apply Qltb_ge in E.
Qed.

Lemma fold_sum_ge (lo : Q) (l : list Q) (a : Q) :
  Forall (λ v, (lo <= v)%Q) l → (lo * py_len l + a <= fold_left Qplus l a)%Q.
Proof.
  revert a. induction l as [|x l IH]; intros a Hl.
  - cbn. change (py_len []) with 0%Q. lra.
  - apply Forall_cons in Hl as [Hx Hl]. cbn [fold_left].
    specialize (IH (a + x)%Q Hl). rewrite py_len_cons.
    revert IH. generalize (fold_left Qplus l (a + x)%Q) (py_len l).
    intros s n IH. nra.
Qed.

Lemma mean_ge (lo x : Q) (l : list Q) :
  Forall (λ v, (lo <= v)%Q) (x :: l) → (lo <= py_sum (x :: l) / py_len (x :: l))%Q.
Proof.
  intros Hl. apply Qle_shift_div_l; [apply py_len_pos|].
  pose proof (fold_sum_ge lo (x :: l) 0 Hl) as Hs. fold (py_sum (x :: l)) in Hs.
  revert Hs. generalize (py_sum (x :: l)) (py_len (x :: l)). intros s n Hs. lra.
Qed.

Lemma sample_voltages_ge (lo : Q) chan i n :
  (∀ j, i ≤ j < i + n → ∃ v, chan j = Returns v ∧ (lo <= v)%Q) →
  ∃ voltages, GP2Y1010AU0F.sample_voltages chan i n = Returns voltages ∧
              Forall (λ v, (lo <= v)%Q) voltages.
Proof.
  revert i. induction n as [|n IH]; intros i Hch; cbn.
  - exists []. split; [done|constructor].
  - destruct (Hch i) as (v & Hv & Hle); [lia|].
    destruct (IH (S i)) as (rest & Hrest & Hall); [intros j Hj; apply Hch; lia|].
    unfold obind. rewrite Hv, Hrest. eexists. split; [reflexivity|].
    constructor; [|done]. apply Qle_trans with v; [done|apply py_max_ge_r].
Qed.

(** Voltages of at least 0.011 V give density 0, whatever the outlier
    filter keeps of them. *)
Lemma dust_from_voltages_saturated sqrt voltages :
  Forall (λ v, (11 # 1000 <= v)%Q) voltages →
  snd (GP2Y1010AU0F.dust_from_voltages sqrt voltages) = 0%Q.
Proof.
  intros Hall. apply (reject_outliers_Forall sqrt _ _ 2) in Hall.
  unfold GP2Y1010AU0F.dust_from_voltages. cbv zeta. cbn [snd].
  destruct (GP2Y1010AU0F.reject_outliers sqrt voltages 2) as [|x l];
    [reflexivity|].
  apply mean_ge in Hall. revert Hall.
  generalize (py_sum (x :: l) / py_len (x :: l))%Q as m. intros m Hm.
  unfold GP2Y1010AU0F.NO_DUST_VOLT, GP2Y1010AU0F.MAX_VALID_UG, Qdiv.
  change (/ (5 # 1000))%Q with (1000 # 5)%Q.
  assert (Hpos : Qltb 0 ((m - (78 # 10000)) * (1000 # 5)) = true)
    by (apply Qltb_lt; lra).
  unfold GP2Y1010AU0F.py_max. rewrite Hpos.
  assert (Hcap : Qltb 500 ((m - (78 # 10000)) * (1000 # 5) * 1000) = true)
    by (apply Qltb_lt; lra).
  by rewrite Hcap.
Qed.

(** X11: when each of the ten readings is at least 0.011 V, which stands
    for a density of 640 or more, [read_dust] returns and reports density
    0, not 500 and not the computed density: a saturated signal reads like
    clean air.  This holds whatever the outlier filter keeps, so for any
    square root; the bound lies clear of the threshold near 0.0103 V, so
    the rounding of the float computation does not decide it. *)
Theorem X11_saturated_dust_reads_zero (sqrt : Q → Q)
    (chan_voltage : nat → outcome Q) :
  (∀ i, i < 10 → ∃ v, chan_voltage i = Returns v ∧ (11 # 1000 <= v)%Q) →
  ∃ avg_v, GP2Y1010AU0F.read_dust sqrt (Returns tt) chan_voltage
           = Returns (avg_v, 0%Q).
Proof.
  intros Hch.
  destruct (sample_voltages_ge (11 # 1000) chan_voltage 0 GP2Y1010AU0F.SAMPLES)
    as (voltages & Hvs & Hall).
  { intros j Hj. apply Hch. unfold GP2Y1010AU0F.SAMPLES in Hj. lia. }
  unfold GP2Y1010AU0F.read_dust, obind. rewrite Hvs.
  pose proof (dust_from_voltages_saturated sqrt voltages Hall) as Hd.
  destruct (GP2Y1010AU0F.dust_from_voltages sqrt voltages) as [avg_v d].
  cbn [snd] in Hd. subst d. by exists avg_v.
Qed.

(** The hypothesis of X11 holds of ten readings of 0.02 V. *)
Lemma X11_saturated_dust_reads_zero_witness :
  let chan := λ _ : nat, Returns (2 # 100)%Q in
  (∀ i, i < 10 → ∃ v, chan i = Returns v ∧ (11 # 1000 <= v)%Q) ∧
  ∃ avg_v, GP2Y1010AU0F.read_dust (λ _, 0%Q) (Returns tt) chan
           = Returns (avg_v, 0%Q).
Proof.
  intros chan.
  assert (H : ∀ i, i < 10 → ∃ v, chan i = Returns v ∧ (11 # 1000 <= v)%Q).
  { intros i _. exists (2 # 100)%Q. split; [reflexivity|discriminate]. }
  split; [exact H|].
  exact (X11_saturated_dust_reads_zero (λ _, 0%Q) chan H).
Defined.
